(** * TMBC gallery: a shallow embedding of the media gallery application

    The first part embeds the code, one module per source file or platform
    service:

    - [JS]                 JavaScript values, strings and property lookup;
    - [Path], [Fs]         the parts of Node's [path] (POSIX flavour) and
                           [fs] modules that the route handlers call, over
                           an explicit file system;
    - [Http]               requests parameters and responses;
    - [FilesRoute]         src/app/api/files/route.ts, GET /api/files;
    - [UploadRoute]        the upload route, POST /api/upload;
    - [MediaRoute]         the media route, GET /api/media;
    - [Home]               src/app/page.tsx: the video tracking callback and
                           the keyboard handler of the page component;
    - [MediaDisplay]       the MediaDisplay component with the text
                           watermark and the [fullSize] mode: canvas sizing,
                           watermark tiling, rendered element tree;
    - [MediaDisplayImage]  src/app/components/MediaDisplay.tsx, the
                           component with the image watermark;
    - [MediaDisplay64]     the watermark tiling loops once more, in
                           binary64 arithmetic;
    - [PathNames]          plain file names and normal absolute paths;
    - [Page]               src/app/page.tsx: grid layout, file list and
                           upload of the page component;
    - [MediaDisplayEffects] the MediaDisplay component: loading, the
                           screenshot keys, the watermark path, and the
                           drawing state of a 2D context;
    - [Fixtures]           a file system and a stand-in browser to run the
                           definitions on.

    The second part states and proves the properties, module by module.

    Conventions. JavaScript strings are [string]s of ASCII characters.
    In [MediaDisplay] and [MediaDisplayImage] numbers are rationals [Q]
    with exact arithmetic, an idealisation used for the properties that do
    not turn on how a value rounds; [Math.sqrt], [Math.cos], [Math.sin],
    [Math.PI] and text measurement are parameters
    ([MediaDisplay.Platform]). Rational division agrees with JavaScript's
    for non-zero divisors; the one division whose divisor can be zero on
    well-formed input (the step count of the watermark loops) has its
    Infinity and NaN results written out ([MediaDisplay.steps]). Which
    positions the tiling draws does turn on rounding, so [MediaDisplay64]
    has the loops over IEEE 754 binary64 numbers (the kernel's primitive
    floats), with integers for the canvas size and the loop counters. Mutable
    refs are fields of explicit state records, calls on a canvas context
    and on the file system are logged in program order, and exceptions are
    a [result]. *)

From Stdlib Require Import ZArith QArith Qround Qminmax String Ascii List Lia Lqa.
From Stdlib Require PrimFloat FloatOps SpecFloat Uint63.
From Stdlib.Strings Require Import Byte.
From stdpp Require Import base decidable option list gmap strings pretty.
Import ListNotations.

Open Scope string_scope.
Open Scope list_scope.
Open Scope nat_scope.

(** ** JavaScript values and strings *)

Module JS.

(** A call either returns or throws. *)
Inductive result (A : Type) :=
| Ok (a : A)
| Throw (e : string).
Arguments Ok {A} a.
Arguments Throw {A} e.

(** The values that a property read on a plain object of strings can
    produce: a string, [undefined], or what the object inherits from
    [Object.prototype] (built-in function objects, and the prototype itself
    through [__proto__]). *)
Inductive value :=
| Undefined
| Str (s : string)
| NativeFunction (name : string)
| ObjectPrototype.

(** ToBoolean *)
Definition truthy (v : value) : bool :=
  match v with
  | Undefined => false
  | Str s => negb (bool_decide (s = ""))
  | NativeFunction _ => true
  | ObjectPrototype => true
  end.

(** [a || b] *)
Definition or_else (a b : value) : value := if truthy a then a else b.

(** ToString, as applied to a header value. *)
Definition ToString (v : value) : string :=
  match v with
  | Undefined => "undefined"
  | Str s => s
  | NativeFunction name => "function " +:+ name +:+ "() { [native code] }"
  | ObjectPrototype => "[object Object]"
  end.

(** The properties every plain object inherits from [Object.prototype]. *)
Definition Object_prototype : list (string * value) :=
  [ ("constructor", NativeFunction "Object");
    ("__defineGetter__", NativeFunction "__defineGetter__");
    ("__defineSetter__", NativeFunction "__defineSetter__");
    ("hasOwnProperty", NativeFunction "hasOwnProperty");
    ("__lookupGetter__", NativeFunction "__lookupGetter__");
    ("__lookupSetter__", NativeFunction "__lookupSetter__");
    ("isPrototypeOf", NativeFunction "isPrototypeOf");
    ("propertyIsEnumerable", NativeFunction "propertyIsEnumerable");
    ("toString", NativeFunction "toString");
    ("valueOf", NativeFunction "valueOf");
    ("__proto__", ObjectPrototype);
    ("toLocaleString", NativeFunction "toLocaleString") ].

(** [obj[k]] on an object literal [obj] whose own properties are strings:
    own properties first, then the prototype chain. *)
Definition get_property (obj : gmap string string) (k : string) : value :=
  match obj !! k with
  | Some s => Str s
  | None =>
      match (list_to_map Object_prototype : gmap string value) !! k with
      | Some v => v
      | None => Undefined
      end
  end.

(** [String.prototype.toLowerCase], on ASCII text. *)
Definition lower_ascii (c : ascii) : ascii :=
  let n := nat_of_ascii c in
  if (65 <=? n) && (n <=? 90) then ascii_of_nat (n + 32) else c.

Fixpoint toLowerCase (s : string) : string :=
  match s with
  | EmptyString => EmptyString
  | String c s' => String (lower_ascii c) (toLowerCase s')
  end.

(** [s.split(sep)] for a one-character separator: never the empty array. *)
Fixpoint split (sep : ascii) (s : string) : list string :=
  match s with
  | EmptyString => [EmptyString]
  | String c s' =>
      if Ascii.eqb c sep then EmptyString :: split sep s'
      else match split sep s' with
           | h :: t => String c h :: t
           | [] => [String c EmptyString]
           end
  end.

(** [s.startsWith(p)] *)
Definition startsWith (s p : string) : bool := String.prefix p s.

(** [s.endsWith(suf)] *)
Fixpoint endsWith (s suf : string) : bool :=
  String.eqb s suf ||
  match s with
  | EmptyString => false
  | String _ s' => endsWith s' suf
  end.

(** A case-insensitive test [/\.(e1|e2|...)$/i.test(s)]: the string ends in
    a dot followed by one of the alternatives, letters compared without
    regard to case. *)
Definition test_extension (alternatives : list string) (s : string) : bool :=
  existsb (λ e, endsWith (toLowerCase s) ("." +:+ e)) alternatives.

(** A name ends, letters compared without regard to case, in a dot
    followed by one of the extensions. *)
Definition has_extension (extensions : list string) (name : string) : Prop :=
  ∃ e stem : string, e ∈ extensions ∧ toLowerCase name = stem +:+ "." +:+ e.

(** The JSON values the handlers put in a response body: strings,
    booleans and arrays of strings, as fields of one flat object. *)
Inductive json :=
| JString (s : string)
| JBool (b : bool)
| JStrings (l : list string).

End JS.

(** ** Node's [path] module (POSIX flavour) *)

Module Path.
Import JS.

(** One step of [normalizeString]: [res] is the stack of segments kept so
    far, innermost first. *)
Definition normalize_step (allowAboveRoot : bool) (res : list string) (seg : string)
  : list string :=
  if bool_decide (seg = "") || bool_decide (seg = ".") then res
  else if bool_decide (seg = "..") then
    match res with
    | top :: rest =>
        if bool_decide (top = "..") then (if allowAboveRoot then ".." :: res else res)
        else rest
    | [] => if allowAboveRoot then [".."] else []
    end
  else seg :: res.

Definition normalizeString (path : string) (allowAboveRoot : bool) : string :=
  String.concat "/" (rev (foldl (normalize_step allowAboveRoot) [] (split "/" path))).

(** [path.normalize] *)
Definition normalize (path : string) : string :=
  if bool_decide (path = "") then "."
  else
    let isAbsolute := startsWith path "/" in
    let trailingSeparator := endsWith path "/" in
    let p := normalizeString path (negb isAbsolute) in
    if bool_decide (p = "") then
      (if isAbsolute then "/" else if trailingSeparator then "./" else ".")
    else
      let p := if trailingSeparator then p +:+ "/" else p in
      if isAbsolute then "/" +:+ p else p.

(** [path.join(...parts)]: empty arguments are skipped, the rest are glued
    with "/" and normalized. *)
Definition join (parts : list string) : string :=
  match filter (λ s, s ≠ "") parts with
  | [] => "."
  | nonempty => normalize (String.concat "/" nonempty)
  end.

(** The directory a normalized path lies in, and its last component. *)
Definition dirname (p : string) : string :=
  let d := String.concat "/" (removelast (split "/" p)) in
  if bool_decide (d = "") then (if startsWith p "/" then "/" else ".") else d.

Definition basename (p : string) : string := default "" (last (split "/" p)).

(** [p] names something strictly below the directory [dir]. *)
Definition inside (dir p : string) : Prop :=
  ∃ rest : string, rest ≠ "" ∧ p = dir +:+ "/" +:+ rest.

End Path.

(** ** Node's [fs] module, over an explicit file system *)

Module Fs.
Import JS Path.

(** A file holds bytes; a directory holds the names of its entries, in the
    order they were created. Keys of the store are normalized absolute
    paths. *)
Inductive node :=
| File (content : list byte)
| Dir (entries : list string).

Inductive syscall :=
| ExistsSync (p : string)
| ReadFile (p : string)
| Readdir (p : string)
| MkdirSync (p : string)
| WriteFile (p : string) (data : list byte).

(** The world a route handler runs in: the file store and the calls made
    on it so far, oldest first. *)
Record world := World {
  files : gmap string node;
  calls : list syscall
}.

(** Handlers are computations that read and update the world and either
    return or throw. *)
Definition io (A : Type) : Type := world → result A * world.

#[global] Instance io_ret : MRet io := λ A a w, (Ok a, w).

#[global] Instance io_bind : MBind io := λ A B f m w,
  match m w with
  | (Ok a, w') => f a w'
  | (Throw e, w') => (Throw e, w')
  end.

(** [throw new Error(e)] *)
Definition throw {A : Type} (e : string) : io A := λ w, (Throw e, w).

(** [try { body } catch (error) { handler }] *)
Definition try_catch {A : Type} (body : io A) (handler : string → io A) : io A :=
  λ w, match body w with
       | (Ok a, w') => (Ok a, w')
       | (Throw e, w') => handler e w'
       end.

Definition record (c : syscall) : io () :=
  λ w, (Ok (), World (files w) (calls w ++ [c])).

Definition get_files : io (gmap string node) := λ w, (Ok (files w), w).

Definition set_files (fs : gmap string node) : io () :=
  λ w, (Ok (), World fs (calls w)).

(** What a path names. A path with a trailing separator names a directory
    or nothing. *)
Definition resolve (fs : gmap string node) (p : string) : option node :=
  if endsWith p "/" && negb (bool_decide (p = "/")) then
    match fs !! String.substring 0 (String.length p - 1) p with
    | Some (Dir entries) => Some (Dir entries)
    | _ => None
    end
  else fs !! p.

(** [existsSync(p)] *)
Definition existsSync (p : string) : io bool :=
  record (ExistsSync p);;
  fs ← get_files;
  mret (bool_decide (is_Some (resolve fs p))).

(** [await readFile(p)] *)
Definition readFile (p : string) : io (list byte) :=
  record (ReadFile p);;
  fs ← get_files;
  match resolve fs p with
  | Some (File content) => mret content
  | Some (Dir _) => throw "EISDIR"
  | None => throw "ENOENT"
  end.

(** The order in which a directory's names are reported: libuv's scandir
    sorts them with strcmp, that is by their bytes. *)
Fixpoint insert_name (name : string) (sorted : list string) : list string :=
  match sorted with
  | [] => [name]
  | x :: rest =>
      if String.leb name x then name :: sorted else x :: insert_name name rest
  end.

Definition sort_names (names : list string) : list string :=
  foldr insert_name [] names.

(** [await readdir(p)] *)
Definition readdir (p : string) : io (list string) :=
  record (Readdir p);;
  fs ← get_files;
  match resolve fs p with
  | Some (Dir entries) => mret (sort_names entries)
  | Some (File _) => throw "ENOTDIR"
  | None => throw "ENOENT"
  end.

(** The paths of a normalized absolute path's ancestors and itself,
    outermost first: "/a", "/a/b", ... *)
Definition ancestors (p : string) : list string :=
  let segs := filter (λ s, s ≠ "") (split "/" p) in
  map (λ n, "/" +:+ String.concat "/" (take n segs)) (seq 1 (length segs)).

(** [NAME_MAX]: the longest name (in bytes) a directory entry can have. *)
Definition NAME_MAX : nat := 255.

Definition name_too_long (name : string) : bool := NAME_MAX <? String.length name.
Arguments name_too_long : simpl never.

Definition add_entry (d name : string) (fs : gmap string node) : gmap string node :=
  match fs !! d with
  | Some (Dir entries) => <[d := Dir (entries ++ [name])]> fs
  | _ => fs
  end.

Definition mkdir_one (fs : result (gmap string node)) (p : string)
  : result (gmap string node) :=
  match fs with
  | Throw e => Throw e
  | Ok fs =>
      match fs !! p with
      | Some (Dir _) => Ok fs
      | Some (File _) => Throw "ENOTDIR"
      | None =>
          if name_too_long (basename p) then Throw "ENAMETOOLONG"
          else Ok (<[p := Dir []]> (add_entry (dirname p) (basename p) fs))
      end
  end.

(** [mkdirSync(p, { recursive: true })] *)
Definition mkdirSync (p : string) : io () :=
  record (MkdirSync p);;
  fs ← get_files;
  match foldl mkdir_one (Ok fs) (ancestors p) with
  | Ok fs' => set_files fs'
  | Throw e => throw e
  end.

(** [await writeFile(p, data)] *)
Definition writeFile (p : string) (data : list byte) : io () :=
  record (WriteFile p data);;
  fs ← get_files;
  if endsWith p "/" then throw "EISDIR"
  else
    match fs !! p with
    | Some (Dir _) => throw "EISDIR"
    | Some (File _) => set_files (<[p := File data]> fs)
    | None =>
        match fs !! dirname p with
        | Some (Dir entries) =>
            if name_too_long (basename p) then throw "ENAMETOOLONG"
            else
              set_files
                (<[p := File data]> (<[dirname p := Dir (entries ++ [basename p])]> fs))
        | Some (File _) => throw "ENOTDIR"
        | None => throw "ENOENT"
        end
    end.

End Fs.

(** ** HTTP responses, as the handlers build them *)

Module Http.
Import JS.

Inductive body :=
| JsonBody (fields : list (string * json))
| BufferBody (content : list byte).

Record response := Response {
  status : nat;
  headers : list (string * string);
  payload : body
}.

(** [NextResponse.json(data, { status })] *)
Definition NextResponse_json (data : list (string * json)) (status : nat) : response :=
  Response status [("content-type", "application/json")] (JsonBody data).

(** [new NextResponse(buffer, { headers })]: status 200. *)
Definition NextResponse_new (buffer : list byte) (headers : list (string * string))
  : response :=
  Response 200 headers (BufferBody buffer).

(** [searchParams.get(k)] and [formData.get(k)]: the first value under the
    name, [None] for JavaScript's [null]. *)
Fixpoint get {V : Type} (entries : list (string * V)) (k : string) : option V :=
  match entries with
  | [] => None
  | (k', v) :: rest => if bool_decide (k' = k) then Some v else get rest k
  end.

(** [header(name)] of a response. *)
Definition header (r : response) (name : string) : option string :=
  get (headers r) name.

(** [!s] for a [string | null]. *)
Definition falsy (s : option string) : bool :=
  match s with
  | None => true
  | Some s => bool_decide (s = "")
  end.

(** The status of what a handler produced, if it produced a response. *)
Definition status_of (r : result response) : option nat :=
  match r with
  | Ok resp => Some (status resp)
  | Throw _ => None
  end.

End Http.

(** ** GET /api/files: src/app/api/files/route.ts *)

Module FilesRoute.
Import JS Path Fs Http.

Definition image_extensions : list string := ["jpg"; "jpeg"; "png"; "gif"; "webp"; "svg"].
Definition video_extensions : list string := ["mp4"; "webm"; "ogg"; "mov"].

(** The folder a [type] parameter selects. *)
Definition folderPath (cwd : string) (type : option string) : string :=
  let publicPath := join [cwd; "public"] in
  if bool_decide (type = Some "images") then join [publicPath; "images"]
  else join [publicPath; "videos"].

(** The callback of [files.filter]. *)
Definition keep (type : option string) (file : string) : bool :=
  if bool_decide (type = Some "images") then test_extension image_extensions file
  else test_extension video_extensions file.

Definition GET (cwd : string) (searchParams : list (string * string)) : io response :=
  let type := get searchParams "type" in
  try_catch
    (files ← readdir (folderPath cwd type);
     let filteredFiles := List.filter (keep type) files in
     mret (NextResponse_json [("files", JStrings filteredFiles)] 200))
    (λ error, mret (NextResponse_json [("error", JString "Failed to read files")] 500)).

End FilesRoute.

(** ** POST /api/upload: the upload route *)

Module UploadRoute.
Import JS Path Fs Http.

(** A form data entry is a string or a [File] with a name and bytes. *)
Inductive FormDataEntryValue :=
| FText (s : string)
| FFile (name : string) (content : list byte).

(** [!file] *)
Definition no_file (file : option FormDataEntryValue) : bool :=
  match file with
  | None => true
  | Some (FText s) => bool_decide (s = "")
  | Some (FFile _ _) => false
  end.

(** [await file.arrayBuffer()]: only a [File] has the method. *)
Definition arrayBuffer (file : option FormDataEntryValue) : io (list byte) :=
  match file with
  | Some (FFile _ content) => mret content
  | _ => throw "TypeError: file.arrayBuffer is not a function"
  end.

(** [file.name], read after [arrayBuffer] succeeded. *)
Definition name_of (file : option FormDataEntryValue) : io string :=
  match file with
  | Some (FFile name _) => mret name
  | _ => throw "TypeError"
  end.

(** [type === 'images'] for a form data entry. *)
Definition is_images (type : option FormDataEntryValue) : bool :=
  match type with
  | Some (FText s) => bool_decide (s = "images")
  | _ => false
  end.

Definition folderPath (cwd : string) (type : option FormDataEntryValue) : string :=
  let publicPath := join [cwd; "public"] in
  if is_images type then join [publicPath; "images"]
  else join [publicPath; "videos"].

(** The responses of the handler. *)
Definition no_file_provided : response :=
  NextResponse_json [("error", JString "No file provided")] 400.

Definition uploaded (name : string) : response :=
  NextResponse_json
    [ ("success", JBool true);
      ("message", JString "File uploaded successfully");
      ("fileName", JString name) ] 200.

Definition failed_to_upload : response :=
  NextResponse_json [("error", JString "Failed to upload file")] 500.

(** The [try] block of [POST]. [request.formData()] is given as its
    outcome: the parsed entries, or the exception it throws on a body that
    is not form data. *)
Definition upload (cwd : string)
    (request_formData : result (list (string * FormDataEntryValue))) : io response :=
  formData ← (match request_formData with
              | Ok fd => mret fd
              | Throw e => throw e
              end);
  let file := get formData "file" in
  let type := get formData "type" in
  if no_file file then mret no_file_provided
  else
    buffer ← arrayBuffer file;
    let folder := folderPath cwd type in
    (* Ensure directory exists *)
    present ← existsSync folder;
    (if negb present then mkdirSync folder else mret ());;
    name ← name_of file;
    let filePath := join [folder; name] in
    writeFile filePath buffer;;
    mret (uploaded name).

Definition POST (cwd : string)
    (request_formData : result (list (string * FormDataEntryValue))) : io response :=
  try_catch (upload cwd request_formData) (λ error, mret failed_to_upload).

End UploadRoute.

(** ** GET /api/media: the media route *)

Module MediaRoute.
Import JS Path Fs Http.

Definition imageTypes : gmap string string :=
  list_to_map
    [ ("jpg", "image/jpeg"); ("jpeg", "image/jpeg"); ("png", "image/png");
      ("gif", "image/gif"); ("webp", "image/webp"); ("svg", "image/svg+xml") ].

Definition videoTypes : gmap string string :=
  list_to_map
    [ ("mp4", "video/mp4"); ("webm", "video/webm"); ("ogg", "video/ogg");
      ("mov", "video/quicktime") ].

Definition folderPath (cwd : string) (type : string) : string :=
  let publicPath := join [cwd; "public"] in
  if bool_decide (type = "images") then join [publicPath; "images"]
  else join [publicPath; "videos"].

(** [fileName.split('.').pop()?.toLowerCase()] *)
Definition extension (fileName : string) : option string :=
  toLowerCase <$> last (split "." fileName).

(** The value assigned to [contentType]. *)
Definition contentType (type : string) (fileName : string) : value :=
  let ext := extension fileName in
  if bool_decide (type = "images") then
    or_else (get_property imageTypes (default "" ext)) (Str "image/jpeg")
  else
    or_else (get_property videoTypes (default "" ext)) (Str "video/mp4").

(** The responses of the handler. *)
Definition missing_parameter : response :=
  NextResponse_json [("error", JString "Missing file or type parameter")] 400.

Definition file_not_found : response :=
  NextResponse_json [("error", JString "File not found")] 404.

Definition failed_to_serve : response :=
  NextResponse_json [("error", JString "Failed to serve file")] 500.

Definition served (type fileName : string) (fileBuffer : list byte) : response :=
  NextResponse_new fileBuffer
    [ ("Content-Type", ToString (contentType type fileName));
      ("Content-Length", pretty (length fileBuffer));
      ("Cache-Control", "private, no-cache, no-store, must-revalidate");
      ("Pragma", "no-cache");
      ("Expires", "0") ].

Definition GET (cwd : string) (searchParams : list (string * string)) : io response :=
  let fileName := get searchParams "file" in
  let type := get searchParams "type" in
  if falsy fileName || falsy type then mret missing_parameter
  else
    let fileName := default "" fileName in
    let type := default "" type in
    try_catch
      (let folder := folderPath cwd type in
       let filePath := join [folder; fileName] in
       (* Security: Check if file exists and is within the allowed directory *)
       present ← existsSync filePath;
       if negb present || negb (startsWith filePath folder) then mret file_not_found
       else
         (* Read file as buffer *)
         fileBuffer ← readFile filePath;
         (* Determine content type based on file extension *)
         mret (served type fileName fileBuffer))
      (λ error, mret failed_to_serve).

End MediaRoute.

(** ** Page component: src/app/page.tsx *)

Module Home.

(** An [HTMLVideoElement] is identified by its object identity. *)
Definition HTMLVideoElement := nat.

(** What [handleVideoPlay] does to the outside world, in program order. *)
Inductive action :=
| Pause (v : HTMLVideoElement)       (* currentlyPlayingVideoRef.current.pause() *)
| SetCurrent (v : HTMLVideoElement). (* currentlyPlayingVideoRef.current = v *)

(** The state the callback works on: the ref, the set of video elements
    whose [paused] flag is false, and the trace of actions performed. *)
Record page := Page {
  currentlyPlayingVideoRef : option HTMLVideoElement;
  playing : gset HTMLVideoElement;
  trace : list action
}.

Definition initial : page := Page None ∅ [].

(** [video.pause()] *)
Definition pause (v : HTMLVideoElement) (st : page) : page :=
  Page (currentlyPlayingVideoRef st) (playing st ∖ {[ v ]}) (trace st ++ [Pause v]).

Definition set_current (v : HTMLVideoElement) (st : page) : page :=
  Page (Some v) (playing st) (trace st ++ [SetCurrent v]).

(** page.tsx, [handleVideoPlay]. *)
Definition handleVideoPlay (videoElement : HTMLVideoElement) (st : page) : page :=
  let st1 :=
    match currentlyPlayingVideoRef st with
    | Some current =>
        if bool_decide (current ≠ videoElement) then pause current st else st
    | None => st
    end in
  set_current videoElement st1.

(** Events on the video elements of the page. A video that starts playing
    fires [onPlay], which MediaDisplay forwards to [handleVideoPlay]; a
    video can also stop on its own (the user pauses it, or it ends). *)
Inductive event :=
| Play (v : HTMLVideoElement)
| Stop (v : HTMLVideoElement).

Definition step (st : page) (e : event) : page :=
  match e with
  | Play v =>
      handleVideoPlay v
        (Page (currentlyPlayingVideoRef st) ({[ v ]} ∪ playing st) (trace st))
  | Stop v => Page (currentlyPlayingVideoRef st) (playing st ∖ {[ v ]}) (trace st)
  end.

Definition run (st : page) (es : list event) : page := foldl step st es.

(** The page invariant: whatever plays is the video the ref points to. *)
Definition only_current_plays (st : page) : Prop :=
  playing st ⊆ (match currentlyPlayingVideoRef st with
                | Some c => {[ c ]}
                | None => ∅
                end : gset HTMLVideoElement).

(** The fields of a [KeyboardEvent] the handlers read, and the flag
    [preventDefault] sets. *)
Record KeyboardEvent := KeyEvent {
  key : string;
  ctrlKey : bool;
  shiftKey : bool;
  altKey : bool;
  metaKey : bool;
  defaultPrevented : bool
}.

Definition preventDefault (e : KeyboardEvent) : KeyboardEvent :=
  KeyEvent (key e) (ctrlKey e) (shiftKey e) (altKey e) (metaKey e) true.

(** page.tsx, [handleKeyDown] of the effect that disables right-click and
    keyboard shortcuts. The result is the event after the handler ran and
    the handler's return value ([Some false] for [return false], [None]
    when it falls off the end). *)
Definition handleKeyDown (e : KeyboardEvent) : KeyboardEvent * option bool :=
  (* Disable Ctrl+S (Save) *)
  if ctrlKey e && bool_decide (key e = "s") then (preventDefault e, Some false)
  (* Disable Ctrl+Shift+I (DevTools) *)
  else if ctrlKey e && shiftKey e && bool_decide (key e = "I") then (preventDefault e, Some false)
  (* Disable F12 (DevTools) *)
  else if bool_decide (key e = "F12") then (preventDefault e, Some false)
  (* Disable Ctrl+Shift+C (Inspect Element) *)
  else if ctrlKey e && shiftKey e && bool_decide (key e = "C") then (preventDefault e, Some false)
  (* Disable Ctrl+U (View Source) *)
  else if ctrlKey e && bool_decide (key e = "u") then (preventDefault e, Some false)
  else (e, None).

(** The five suppressed combinations, as the specification lists them. *)
Definition is_Ctrl_s (e : KeyboardEvent) : Prop := ctrlKey e = true ∧ key e = "s".
Definition is_Ctrl_Shift_I (e : KeyboardEvent) : Prop :=
  ctrlKey e = true ∧ shiftKey e = true ∧ key e = "I".
Definition is_F12 (e : KeyboardEvent) : Prop := key e = "F12".
Definition is_Ctrl_Shift_C (e : KeyboardEvent) : Prop :=
  ctrlKey e = true ∧ shiftKey e = true ∧ key e = "C".
Definition is_Ctrl_u (e : KeyboardEvent) : Prop := ctrlKey e = true ∧ key e = "u".

Definition suppressed (e : KeyboardEvent) : Prop :=
  is_Ctrl_s e ∨ is_Ctrl_Shift_I e ∨ is_F12 e ∨ is_Ctrl_Shift_C e ∨ is_Ctrl_u e.

End Home.

(** ** The MediaDisplay component (numbers as rationals; the tiling loops
    in binary64 arithmetic are in [MediaDisplay64]) *)

Module MediaDisplay.
Import JS.
Local Open Scope Q_scope.

(** What the component asks of the browser: the [Math] functions used by
    the watermark code and [ctx.measureText(text).width] under the font
    [bold <fontSize>px Arial, sans-serif]. *)
Class Platform := {
  Math_sqrt : Q → Q;
  Math_cos : Q → Q;
  Math_sin : Q → Q;
  Math_PI : Q;
  measureText : Q → string → Q
}.

(** [a < b] and [a > b] on numbers. *)
Definition lt (a b : Q) : bool := negb (Qle_bool b a).
Definition gt (a b : Q) : bool := lt b a.

(** Calls on the 2D context, in program order. [SetFont s] stands for
    [ctx.font = `bold ${s}px Arial, sans-serif`]. *)
Inductive op :=
| SetImageSmoothingEnabled (b : bool)
| SetImageSmoothingQuality (q : string)
| ClearRect (x y w h : Q)
| DrawImage (x y w h : Q)
| DrawWatermarkImage (x y w h : Q)
| Save
| Restore
| SetGlobalAlpha (a : Q)
| SetFont (fontSize : Q)
| SetFillStyle (s : string)
| SetStrokeStyle (s : string)
| SetLineWidth (w : Q)
| SetTextAlign (s : string)
| SetTextBaseline (s : string)
| Translate (x y : Q)
| Rotate (angle : Q)
| StrokeText (text : string) (x y : Q)
| FillText (text : string) (x y : Q).

(** An image element and the parent element of a canvas. *)
Record HTMLImageElement := Img { img_width : Z; img_height : Z }.
Record Element := Container { clientWidth : Z; clientHeight : Z }.

(** A value assigned to a style property: a keyword or percentage given as
    text, or a template [`${n}px`]. *)
Inductive css :=
| Keyword (s : string)
| Px (n : Q).

(** A canvas element: its bitmap size, its [style] object, and the calls
    made on its 2D context. *)
Record HTMLCanvasElement := Canvas {
  width : Z;
  height : Z;
  style : gmap string css;
  ctx_calls : list op
}.

Definition blank_canvas : HTMLCanvasElement := Canvas 300 150 ∅ [].

(** Assigning a number to [canvas.width] or [canvas.height]: the attribute
    is an unsigned long, so the number is truncated to an integer modulo
    2^32 (sizes of 2^31 and more, which the element replaces by its
    default, do not arise from element sizes). *)
Definition to_unsigned_long (q : Q) : Z :=
  (Z.quot (Qnum q) (Zpos (Qden q)) mod 2 ^ 32)%Z.

(** A function either returns or never does; in both cases the state it
    reached is given. *)
Inductive outcome (A : Type) :=
| Returns (a : A)
| Hangs (a : A).
Arguments Returns {A} a.
Arguments Hangs {A} a.

(** [for (let i = lo; i < hi; i++) body] over integer bounds. *)
Fixpoint iterate {S : Type} (n : nat) (i : Z) (body : Z → S → S) (s : S) : S :=
  match n with
  | O => s
  | Datatypes.S n' => iterate n' (i + 1)%Z body (body i s)
  end.

Definition for_range {S : Type} (lo hi : Z) (body : Z → S → S) (s : S) : S :=
  iterate (Z.to_nat (hi - lo)) lo body s.

(** The integers lo, lo+1, ..., hi-1 that such a loop runs through. *)
Definition range (lo hi : Z) : list Z :=
  map (λ k, lo + Z.of_nat k)%Z (seq 0 (Z.to_nat (hi - lo))).

(** The value of [Math.ceil(diagonal / spacing) + 2]: an integer, or one of
    the values a division by zero produces. *)
Inductive bound :=
| Finite (n : Z)
| PosInfinity
| NegInfinity
| NaN.

Definition steps (diagonal spacing : Q) : bound :=
  if Qeq_bool spacing 0 then
    (if Qeq_bool diagonal 0 then NaN
     else if lt diagonal 0 then NegInfinity else PosInfinity)
  else Finite (Qceiling (diagonal / spacing) + 2).

Section WithPlatform.
Context {browser : Platform}.

(** [const angle = -Math.PI / 4] *)
Definition angle : Q := - Math_PI / 4.

(** The position computed for the pair (i, j). *)
Definition position (w h : Z) (spacingX spacingY : Q) (i j : Z) : Q * Q :=
  (inject_Z w / 2 + (inject_Z i * spacingX * Math_cos angle)
                  - (inject_Z j * spacingY * Math_sin angle),
   inject_Z h / 2 + (inject_Z i * spacingX * Math_sin angle)
                  + (inject_Z j * spacingY * Math_cos angle)).

(** Only draw if within canvas bounds (with some margin). *)
Definition in_bounds (w h : Z) (textWidth textHeight : Q) (p : Q * Q) : bool :=
  gt p.1 (- textWidth) && lt p.1 (inject_Z w + textWidth) &&
  gt p.2 (- textHeight) && lt p.2 (inject_Z h + textHeight).

(** One copy of the text: save, translate, rotate, stroke, fill, restore. *)
Definition stamp (text : string) (p : Q * Q) : list op :=
  [Save; Translate p.1 p.2; Rotate angle; StrokeText text 0 0; FillText text 0 0; Restore].

(** The tiling loops of the watermark code, from "Calculate spacing between
    watermarks" to the end of the nested [for]; the component has this text
    in [drawImageToCanvas] and again in [drawVideoWatermark]. [calls] are
    the context calls made so far. *)
Definition drawTiling (text : string) (w h : Z) (textWidth textHeight : Q)
    (calls : list op) : outcome (list op) :=
  let spacingX := textWidth * (3 # 2) in
  let spacingY := textHeight * 2 in
  let diagonal := Math_sqrt (inject_Z w * inject_Z w + inject_Z h * inject_Z h) in
  let stepsX := steps diagonal spacingX in
  let stepsY := steps diagonal spacingY in
  match stepsX, stepsY with
  | Finite stepsX, Finite stepsY =>
      Returns
        (for_range (- stepsX) stepsX (λ i calls,
           for_range (- stepsY) stepsY (λ j calls,
             let p := position w h spacingX spacingY i j in
             if in_bounds w h textWidth textHeight p then calls ++ stamp text p
             else calls) calls) calls)
  | Finite stepsX, PosInfinity =>
      (* the inner loop starts at -Infinity and never ends; its positions
         are NaN, so nothing is drawn *)
      if (0 <? stepsX)%Z then Hangs calls else Returns calls
  | Finite _, _ => Returns calls
  | PosInfinity, _ =>
      (* i stays -Infinity: every position is NaN, nothing is drawn *)
      Hangs calls
  | _, _ => Returns calls
  end.

(** The positions the loops select, in drawing order. *)
Definition selected (w h : Z) (textWidth textHeight : Q) (stepsX stepsY : Z)
  : list (Q * Q) :=
  flat_map (λ i,
    flat_map (λ j,
      let p := position w h (textWidth * (3 # 2)) (textHeight * 2) i j in
      if in_bounds w h textWidth textHeight p then [p] else [])
    (range (- stepsY) stepsY))
  (range (- stepsX) stepsX).

(** The watermark code: context settings, text measurement, tiling. *)
Definition drawWatermark (text : string) (w h : Z) (calls : list op)
  : outcome (list op) :=
  let fontSize := Qmax 20 (Qmin (inject_Z w) (inject_Z h) * (6 # 100)) in
  let calls := calls ++
    [ Save; SetGlobalAlpha (3 # 10); SetFont fontSize; SetFillStyle "white";
      SetStrokeStyle "rgba(0, 0, 0, 0.3)"; SetLineWidth 1;
      SetTextAlign "center"; SetTextBaseline "middle" ] in
  let textWidth := measureText fontSize text in
  let textHeight := fontSize in
  match drawTiling text w h textWidth textHeight calls with
  | Returns calls => Returns (calls ++ [Restore])
  | Hangs calls => Hangs calls
  end.

(** [MAX_RESOLUTION = fullSize ? Infinity : 800]; [None] is Infinity. *)
Definition MAX_RESOLUTION (fullSize : bool) : option Q :=
  if fullSize then None else Some 800.

Definition exceeds (x : Q) (limit : option Q) : bool :=
  match limit with
  | Some m => gt x m
  | None => false
  end.

(** The display dimensions [drawImageToCanvas] computes. *)
Definition displaySize (fullSize : bool) (img : HTMLImageElement)
    (container : option Element) : Q * Q :=
  let imgAspect := inject_Z (img_width img) / inject_Z (img_height img) in
  let containerWidth :=
    inject_Z (match container with Some c => clientWidth c | None => img_width img end) in
  let containerHeight :=
    inject_Z (match container with Some c => clientHeight c | None => img_height img end) in
  let containerAspect := containerWidth / containerHeight in
  if fullSize then
    (* In fullSize mode, fit image to container while maintaining aspect ratio *)
    if gt imgAspect containerAspect then (containerWidth, containerWidth / imgAspect)
    else (containerHeight * imgAspect, containerHeight)
  else
    (* Normal mode - use container size but limit resolution *)
    let displayWidth := containerWidth in
    let displayHeight := containerHeight in
    if exceeds displayWidth (MAX_RESOLUTION fullSize)
       || exceeds displayHeight (MAX_RESOLUTION fullSize) then
      match MAX_RESOLUTION fullSize with
      | Some limit =>
          if gt displayWidth displayHeight then (limit, limit / imgAspect)
          else (limit * imgAspect, limit)
      | None => (displayWidth, displayHeight)
      end
    else (displayWidth, displayHeight).

(** [drawImageToCanvas]. The arguments are what the refs hold when it runs:
    [canvasRef.current], [imageRef.current], [canvas.parentElement], and
    whether [canvas.getContext('2d')] gives a context. *)
Definition drawImageToCanvas (fullSize : bool) (watermarkText : string)
    (canvasRef : option HTMLCanvasElement) (imageRef : option HTMLImageElement)
    (parentElement : option Element) (has_context : bool)
  : outcome (option HTMLCanvasElement) :=
  match canvasRef, imageRef with
  | Some canvas, Some img =>
      let '(displayWidth, displayHeight) := displaySize fullSize img parentElement in
      (* Set canvas dimensions *)
      let w := to_unsigned_long displayWidth in
      let h := to_unsigned_long displayHeight in
      (* Set CSS size *)
      let style :=
        match parentElement with
        | Some _ =>
            if fullSize then
              <["maxHeight" := Keyword "100%"]> (<["maxWidth" := Keyword "100%"]>
                (<["height" := Keyword "auto"]> (<["width" := Keyword "auto"]> (style canvas))))
            else
              <["height" := Keyword "100%"]> (<["width" := Keyword "100%"]> (style canvas))
        | None => style canvas
        end in
      if has_context then
        let calls := ctx_calls canvas ++
          [ SetImageSmoothingEnabled true;
            SetImageSmoothingQuality (if fullSize then "high" else "low");
            ClearRect 0 0 (inject_Z w) (inject_Z h);
            (* Draw image to fill canvas *)
            DrawImage 0 0 (inject_Z w) (inject_Z h) ] in
        (* Draw diagonal repeated watermark text if available *)
        if bool_decide (watermarkText ≠ "") then
          match drawWatermark watermarkText w h calls with
          | Returns calls => Returns (Some (Canvas w h style calls))
          | Hangs calls => Hangs (Some (Canvas w h style calls))
          end
        else Returns (Some (Canvas w h style calls))
      else Returns (Some (Canvas w h style (ctx_calls canvas)))
  | _, _ => Returns canvasRef
  end.


End WithPlatform.

(** The props and state [render] depends on. *)
Inductive FileType := images | videos.

Record props := Props {
  fileName : string;
  type : FileType;
  fullSize : bool;
  has_onVideoClick : bool
}.

Record state := State {
  blobUrl : option string;
  loading : bool;
  error : option string;
  isHidden : bool
}.

(** The element tree the component returns: tag, ref name, class list and
    the [display] style where one is set. *)
#[warnings="-register-all"]
Inductive element :=
| TextNode (s : string)
| DivEl (className : string) (display : option string) (children : list element)
| CanvasEl (ref : string) (className : string) (display : string)
| VideoEl (ref : string) (src : option string) (className : string) (display : string)
| ImageEl (src : string) (className : string).

Definition display_of (isHidden : bool) : string :=
  if isHidden then "none" else "block".

(** [{watermarkText && (<canvas ref={videoWatermarkCanvasRef} ... />)}] *)
Definition watermark_overlay (watermarkText : string) (p : props) (s : state)
  : list element :=
  if bool_decide (watermarkText ≠ "") then
    [ CanvasEl "videoWatermarkCanvasRef"
        ("pointer-events-none select-none " +:+
           (if fullSize p then "absolute" else "absolute inset-0"))
        (display_of (isHidden s)) ]
  else [].

(** The value the component function returns. *)
Definition render (watermarkText : string) (p : props) (s : state) : element :=
  if loading s then
    DivEl "w-full h-full flex items-center justify-center bg-zinc-200 dark:bg-zinc-800" None
      [DivEl "text-zinc-600 dark:text-zinc-400 text-sm" None [TextNode "Loading..."]]
  else
    match error s with
    | Some msg =>
        DivEl "w-full h-full flex items-center justify-center bg-zinc-200 dark:bg-zinc-800" None
          [DivEl "text-red-600 dark:text-red-400 text-sm" None [TextNode msg]]
    | None =>
        match type p with
        | images =>
            DivEl ("w-full h-full flex items-center justify-center " +:+
                     (if fullSize p then "" else "pointer-events-none")) None
              [ CanvasEl "canvasRef"
                  ("select-none " +:+
                     (if fullSize p then "max-w-full max-h-full" else "w-full h-full"))
                  (display_of (isHidden s)) ]
        | videos =>
            DivEl ("relative w-full h-full " +:+
                     (if fullSize p then "flex items-center justify-center" else ""))
              (Some (display_of (isHidden s)))
              ( VideoEl "videoRef" (blobUrl s)
                  ((if fullSize p then "max-w-full max-h-full" else "w-full h-full") +:+ " " +:+
                   (if fullSize p then "object-contain" else "object-cover") +:+ " select-none")
                  (display_of (isHidden s))
                :: watermark_overlay watermarkText p s )
        end
    end.

End MediaDisplay.

(** ** src/app/components/MediaDisplay.tsx: the component with an image
    watermark *)

Module MediaDisplayImage.
Import JS MediaDisplay.
Local Open Scope Q_scope.

(** The watermark image element, as far as the drawing code reads it. *)
Record WatermarkImage := Watermark {
  complete : bool;
  naturalWidth : Z;
  wm_width : Z;
  wm_height : Z
}.

(** [const MAX_RESOLUTION = 800] *)
Definition MAX_RESOLUTION : Q := 800.

(** The display dimensions: the container's (or the image's), limited to
    the maximum resolution while maintaining aspect ratio. *)
Definition displaySize (img : HTMLImageElement) (container : option Element) : Q * Q :=
  let displayWidth :=
    inject_Z (match container with Some c => clientWidth c | None => img_width img end) in
  let displayHeight :=
    inject_Z (match container with Some c => clientHeight c | None => img_height img end) in
  if gt displayWidth MAX_RESOLUTION || gt displayHeight MAX_RESOLUTION then
    let aspect := displayWidth / displayHeight in
    if gt displayWidth displayHeight then (MAX_RESOLUTION, MAX_RESOLUTION / aspect)
    else (MAX_RESOLUTION * aspect, MAX_RESOLUTION)
  else (displayWidth, displayHeight).

(** [drawImageToCanvas] *)
Definition drawImageToCanvas
    (canvasRef : option HTMLCanvasElement) (imageRef : option HTMLImageElement)
    (watermarkRef : option WatermarkImage)
    (parentElement : option Element) (has_context : bool)
  : option HTMLCanvasElement :=
  match canvasRef, imageRef with
  | Some canvas, Some img =>
      let '(displayWidth, displayHeight) := displaySize img parentElement in
      (* Set canvas to low resolution *)
      let w := to_unsigned_long displayWidth in
      let h := to_unsigned_long displayHeight in
      (* Set CSS size to fill container (for display) *)
      let style :=
        match parentElement with
        | Some _ => <["height" := Keyword "100%"]> (<["width" := Keyword "100%"]> (style canvas))
        | None => style canvas
        end in
      if has_context then
        let imgAspect := inject_Z (img_width img) / inject_Z (img_height img) in
        let canvasAspect := inject_Z w / inject_Z h in
        let '(drawX, drawY, drawWidth, drawHeight) :=
          if gt imgAspect canvasAspect then
            let drawHeight := inject_Z h in
            let drawWidth := drawHeight * imgAspect in
            ((inject_Z w - drawWidth) / 2, 0, drawWidth, drawHeight)
          else
            let drawWidth := inject_Z w in
            let drawHeight := drawWidth / imgAspect in
            (0, (inject_Z h - drawHeight) / 2, drawWidth, drawHeight) in
        let calls := ctx_calls canvas ++
          [ SetImageSmoothingEnabled true;
            SetImageSmoothingQuality "low";
            ClearRect 0 0 (inject_Z w) (inject_Z h);
            (* Draw main image at low resolution *)
            DrawImage drawX drawY drawWidth drawHeight ] in
        (* Draw watermark if loaded *)
        let calls :=
          match watermarkRef with
          | Some watermark =>
              if complete watermark && (0 <? naturalWidth watermark)%Z then
                let watermarkScale := 15 # 100 in
                let watermarkWidth := inject_Z w * watermarkScale in
                let watermarkHeight :=
                  (inject_Z (wm_height watermark) / inject_Z (wm_width watermark))
                  * watermarkWidth in
                let padding := 10 in
                let watermarkX := inject_Z w - watermarkWidth - padding in
                let watermarkY := padding in
                calls ++
                  [ SetGlobalAlpha (8 # 10);
                    DrawWatermarkImage watermarkX watermarkY watermarkWidth watermarkHeight;
                    SetGlobalAlpha 1 ]
              else calls
          | None => calls
          end in
        Some (Canvas w h style calls)
      else Some (Canvas w h style (ctx_calls canvas))
  | _, _ => canvasRef
  end.

(** What follows the [<video>] element in the rendered tree:
    [{watermarkLoaded && watermarkRef.current && (<div> <Image/> </div>)}]. *)
Definition watermark_overlay (watermarkLoaded : bool) (watermarkRef : option WatermarkImage)
    (watermarkPath : string) : list element :=
  match watermarkRef with
  | Some _ =>
      if watermarkLoaded then
        [ DivEl "absolute top-0 right-0 pointer-events-none p-2.5 w-[15%] h-[15%]" None
            [ DivEl "relative w-full h-full" None [ImageEl watermarkPath "object-contain"] ] ]
      else []
  | None => []
  end.

End MediaDisplayImage.

(** ** Plain file names *)

Module PathNames.
Import JS Path.

(** Whether the character occurs in the string. *)
Fixpoint mem_char (c : ascii) (s : string) : bool :=
  match s with
  | EmptyString => false
  | String a s' => Ascii.eqb a c || mem_char c s'
  end.

(** A plain name: one path segment that [path.normalize] keeps as it is,
    that is, not empty, not "." or "..", and without a separator. *)
Definition is_plain (name : string) : bool :=
  negb (String.eqb name "") && negb (String.eqb name ".") &&
  negb (String.eqb name "..") && negb (mem_char "/" name).

(** An absolute path in normal form: "/" followed by plain segments
    separated by "/". *)
Definition normal_absolute (p : string) : Prop :=
  ∃ segs : list string,
    segs ≠ [] ∧ Forall (λ s, is_plain s = true) segs ∧
    p = "/" +:+ String.concat "/" segs.

End PathNames.

(** ** The rest of the page component: grid layout, file list, upload *)

Module Page.
Import JS Http.

(** [type FileType = 'images' | 'videos'] *)
Definition FileType := MediaDisplay.FileType.

Definition type_name (t : FileType) : string :=
  match t with
  | MediaDisplay.images => "images"
  | MediaDisplay.videos => "videos"
  end.

(** [calculateColumnCount] *)
Definition calculateColumnCount (width : Z) : nat :=
  if (1024 <=? width)%Z then 4      (* lg *)
  else if (768 <=? width)%Z then 3  (* md *)
  else if (640 <=? width)%Z then 2  (* sm *)
  else 1.                           (* default *)

(** [a || b] on numbers: 0 is falsy. *)
Definition or_number (a b : Z) : Z := if (a =? 0)%Z then b else a.

(** The dimensions part of the page state. *)
Record dimensions := Dimensions {
  containerWidth : Z;
  containerHeight : Z;
  columnCount : nat
}.

(** [updateDimensions], when [containerRef.current] is set: the
    arguments are the container's client size and the window's inner
    size. *)
Definition updateDimensions (clientWidth clientHeight innerWidth innerHeight : Z)
  : dimensions :=
  let width := or_number clientWidth (innerWidth - 64) in   (* Account for padding *)
  let height := or_number clientHeight (innerHeight - 300) in
  Dimensions width height (calculateColumnCount width).

(** [const rowCount = Math.ceil(files.length / columnCount)] *)
Definition rowCount (files : list string) (columnCount : nat) : Z :=
  Qceiling (inject_Z (Z.of_nat (length files)) / inject_Z (Z.of_nat columnCount)).

(** [const cellSize = containerWidth > 0
       ? Math.floor((containerWidth - 16) / columnCount) : 200] *)
Definition cellSize (containerWidth : Z) (columnCount : nat) : Z :=
  if (0 <? containerWidth)%Z then
    Qfloor (inject_Z (containerWidth - 16) / inject_Z (Z.of_nat columnCount))
  else 200%Z.

(** What a grid cell shows: the props passed to MediaDisplay. *)
Record cell := Cell {
  cell_fileName : string;
  cell_type : FileType;
  cell_onVideoPlay : bool   (* activeTab === 'videos' ? handleVideoPlay : undefined *)
}.

(** [cellRenderer]: [None] is the [null] returned for an index past the
    end of the list. *)
Definition cellRenderer (files : list string) (columnCount : nat) (activeTab : FileType)
    (columnIndex rowIndex : nat) : option cell :=
  let index := rowIndex * columnCount + columnIndex in
  if length files <=? index then None
  else
    (λ fileName,
       Cell fileName activeTab
         (match activeTab with MediaDisplay.videos => true | MediaDisplay.images => false end))
    <$> files !! index.

(** [response.ok] *)
Definition ok (resp : response) : bool :=
  (200 <=? status resp) && (status resp <=? 299).

(** What [await fetch(...)] followed by [await response.json()] gives:
    [response.ok] and the parsed body, or an exception. The handlers of
    the application answer with JSON bodies; raw bytes do not parse. *)
Definition fetched (r : result response) : result (bool * list (string * json)) :=
  match r with
  | Ok resp =>
      match payload resp with
      | JsonBody data => Ok (ok resp, data)
      | BufferBody _ => Throw "SyntaxError"
      end
  | Throw e => Throw e
  end.

(** [v || fallback] for a JSON value [v] or [undefined]. *)
Definition json_or (v : option json) (fallback : json) : json :=
  match v with
  | Some (JString s) => if bool_decide (s = "") then fallback else JString s
  | Some (JBool b) => if b then JBool true else fallback
  | Some (JStrings l) => JStrings l
  | None => fallback
  end.

(** The query of [fetch(`/api/files?type=${type}`)]. *)
Definition files_query (type : FileType) : list (string * string) :=
  [("type", type_name type)].

(** [fetchFiles]: the value given to [setFiles]; [loading] is false
    afterwards in every case. *)
Definition fetchFiles (response : result (bool * list (string * json))) : json :=
  match response with
  | Ok (_, data) => json_or (get data "files") (JStrings [])
  | Throw _ => JStrings []
  end.

(** A [File] chosen in the file input. *)
Record File := FileOf {
  file_name : string;
  file_type : string;       (* the MIME type *)
  file_content : list byte
}.

(** What [handleFileUpload] did: the form it sent (if any), the upload
    message it set last (if any), whether it refreshed the file list and
    cleared the input. *)
Record upload_outcome := Outcome {
  sent : option (list (string * UploadRoute.FormDataEntryValue));
  uploadMessage : option json;
  refreshed : bool
}.

(** [activeTab === 'images'] *)
Definition on_images (activeTab : FileType) : bool :=
  match activeTab with
  | MediaDisplay.images => true
  | MediaDisplay.videos => false
  end.

(** [handleFileUpload]; [upload] stands for the POST of the form to
    /api/upload and the parsing of its answer. *)
Definition handleFileUpload (activeTab : FileType) (file : option File)
    (upload : list (string * UploadRoute.FormDataEntryValue)
              → result (bool * list (string * json))) : upload_outcome :=
  match file with
  | None => Outcome None None false
  | Some file =>
      (* Validate file type *)
      let isImage := startsWith (file_type file) "image/" in
      let isVideo := startsWith (file_type file) "video/" in
      if on_images activeTab && negb isImage then
        Outcome None (Some (JString "Please select an image file")) false
      else if negb (on_images activeTab) && negb isVideo then
        Outcome None (Some (JString "Please select a video file")) false
      else
        let formData :=
          [ ("file", UploadRoute.FFile (file_name file) (file_content file));
            ("type", UploadRoute.FText (type_name activeTab)) ] in
        match upload formData with
        | Ok (true, _) =>
            Outcome (Some formData) (Some (JString "File uploaded successfully!")) true
        | Ok (false, data) =>
            Outcome (Some formData)
              (Some (json_or (get data "error") (JString "Upload failed"))) false
        | Throw _ =>
            Outcome (Some formData) (Some (JString "Upload failed. Please try again.")) false
        end
  end.

End Page.

(** ** The MediaDisplay component: loading, screenshot keys, watermark
    path, and the drawing state of a 2D context *)

Module MediaDisplayEffects.
Import JS Http MediaDisplay.

(** The backslash character. *)
Definition backslash : ascii := "092"%char.

(** [s.replace(/\\/g, '/')] *)
Fixpoint replace_backslashes (s : string) : string :=
  match s with
  | EmptyString => EmptyString
  | String c s' =>
      String (if Ascii.eqb c backslash then "/"%char else c) (replace_backslashes s')
  end.

(** [s.slice(n)] *)
Fixpoint slice (n : nat) (s : string) : string :=
  match n, s with
  | S n', String _ s' => slice n' s'
  | _, _ => s
  end.

(** [s.replace(/^public[\\/]/, '')] *)
Definition remove_public_prefix (s : string) : string :=
  if startsWith s "public/" || startsWith s ("public" +:+ String backslash EmptyString)
  then slice 7 s else s.

(** MediaDisplay.tsx, [getWatermarkPath]; the argument is
    [process.env.NEXT_PUBLIC_WATERMARK_PATH]. *)
Definition getWatermarkPath (envPath : option string) : string :=
  if falsy envPath then
    (* Fallback to default path *)
    "/images/watermark/tmbc.png"
  else
    let envPath := default "" envPath in
    (* Convert file system path to web path *)
    let webPath := replace_backslashes (remove_public_prefix envPath) in
    (* Ensure it starts with / *)
    if negb (startsWith webPath "/") then "/" +:+ webPath else webPath.

(** The query of
    [fetch(`/api/media?file=${encodeURIComponent(fileName)}&type=${type}`)],
    as [searchParams] gives it back to the handler. *)
Definition media_query (fileName : string) (type : FileType) : list (string * string) :=
  [("file", fileName); ("type", Page.type_name type)].

(** [loadMedia], from the answer of the fetch to the last state update.
    [objectUrl] is what [URL.createObjectURL(blob)] returns, [decodes]
    whether the image element fires [onload] (rather than [onerror]) for
    the blob. The result is the blob that [blobUrlRef] stands for, if any,
    and the state of the component. *)
Definition loadMedia (type : FileType) (response : result response)
    (objectUrl : string) (decodes : bool) (s : state) : option body * state :=
  let failed := State (blobUrl s) false (Some "Failed to load media") (isHidden s) in
  match response with
  | Ok response =>
      if negb (Page.ok response) then (None, failed)
      else
        let blob := payload response in
        match type with
        | images =>
            (* Load image and draw on canvas *)
            if decodes then (Some blob, State (blobUrl s) false None (isHidden s))
            else (Some blob, State (blobUrl s) false (Some "Failed to load image") (isHidden s))
        | videos =>
            (* For videos, use blob URL *)
            (Some blob, State (Some objectUrl) false None (isHidden s))
        end
  | Throw _ => (None, failed)
  end.

(** [hideMediaOnScreenshot], up to the timer that restores visibility. *)
Definition hideMediaOnScreenshot (s : state) : state :=
  State (blobUrl s) (loading s) (error s) true.

(** Detect PrintScreen key *)
Definition handleKeyUp (e : Home.KeyboardEvent) (s : state) : state :=
  if bool_decide (Home.key e = "PrintScreen") then hideMediaOnScreenshot s else s.

(** Detect common screenshot shortcuts *)
Definition handleKeyDown (e : Home.KeyboardEvent) (s : state) : state :=
  let s :=
    (* Windows+Shift+S (Windows Snipping Tool) *)
    if bool_decide (Home.key e = "S") && Home.shiftKey e
       && (Home.metaKey e || Home.ctrlKey e)
    then hideMediaOnScreenshot s else s in
  (* Mac: Cmd+Shift+3/4/5 *)
  if (bool_decide (Home.key e = "3") || bool_decide (Home.key e = "4")
      || bool_decide (Home.key e = "5")) && Home.shiftKey e && Home.metaKey e
  then hideMediaOnScreenshot s else s.

(** The [display] values of the canvas and video elements of a tree. *)
Fixpoint media_displays (e : element) : list string :=
  match e with
  | TextNode _ => []
  | DivEl _ _ children => flat_map media_displays children
  | CanvasEl _ _ display => [display]
  | VideoEl _ _ _ display => [display]
  | ImageEl _ _ => []
  end.

(** The drawing state of a 2D context that the watermark code touches,
    and the context: the current state and the stack of saved ones. The
    transform is kept as the list of transformations applied. *)
Record drawing_state := DrawingState {
  globalAlpha : Q;
  font : option Q;
  fillStyle : string;
  strokeStyle : string;
  lineWidth : Q;
  textAlign : string;
  textBaseline : string;
  imageSmoothingEnabled : bool;
  imageSmoothingQuality : string;
  transform : list op
}.

Definition context : Type := drawing_state * list drawing_state.

(** What a call does to the context. [restore()] on an empty stack does
    nothing; drawing calls leave the state alone. *)
Definition exec_op (c : context) (o : op) : context :=
  let '(s, stack) := c in
  match o with
  | Save => (s, s :: stack)
  | Restore =>
      match stack with
      | s' :: stack' => (s', stack')
      | [] => (s, [])
      end
  | SetGlobalAlpha a =>
      (DrawingState a (font s) (fillStyle s) (strokeStyle s) (lineWidth s) (textAlign s)
         (textBaseline s) (imageSmoothingEnabled s) (imageSmoothingQuality s) (transform s),
       stack)
  | SetFont f =>
      (DrawingState (globalAlpha s) (Some f) (fillStyle s) (strokeStyle s) (lineWidth s)
         (textAlign s) (textBaseline s) (imageSmoothingEnabled s) (imageSmoothingQuality s)
         (transform s), stack)
  | SetFillStyle v =>
      (DrawingState (globalAlpha s) (font s) v (strokeStyle s) (lineWidth s) (textAlign s)
         (textBaseline s) (imageSmoothingEnabled s) (imageSmoothingQuality s) (transform s),
       stack)
  | SetStrokeStyle v =>
      (DrawingState (globalAlpha s) (font s) (fillStyle s) v (lineWidth s) (textAlign s)
         (textBaseline s) (imageSmoothingEnabled s) (imageSmoothingQuality s) (transform s),
       stack)
  | SetLineWidth v =>
      (DrawingState (globalAlpha s) (font s) (fillStyle s) (strokeStyle s) v (textAlign s)
         (textBaseline s) (imageSmoothingEnabled s) (imageSmoothingQuality s) (transform s),
       stack)
  | SetTextAlign v =>
      (DrawingState (globalAlpha s) (font s) (fillStyle s) (strokeStyle s) (lineWidth s) v
         (textBaseline s) (imageSmoothingEnabled s) (imageSmoothingQuality s) (transform s),
       stack)
  | SetTextBaseline v =>
      (DrawingState (globalAlpha s) (font s) (fillStyle s) (strokeStyle s) (lineWidth s)
         (textAlign s) v (imageSmoothingEnabled s) (imageSmoothingQuality s) (transform s),
       stack)
  | SetImageSmoothingEnabled v =>
      (DrawingState (globalAlpha s) (font s) (fillStyle s) (strokeStyle s) (lineWidth s)
         (textAlign s) (textBaseline s) v (imageSmoothingQuality s) (transform s), stack)
  | SetImageSmoothingQuality v =>
      (DrawingState (globalAlpha s) (font s) (fillStyle s) (strokeStyle s) (lineWidth s)
         (textAlign s) (textBaseline s) (imageSmoothingEnabled s) v (transform s), stack)
  | Translate _ _ | Rotate _ =>
      (DrawingState (globalAlpha s) (font s) (fillStyle s) (strokeStyle s) (lineWidth s)
         (textAlign s) (textBaseline s) (imageSmoothingEnabled s) (imageSmoothingQuality s)
         (transform s ++ [o]), stack)
  | ClearRect _ _ _ _ | DrawImage _ _ _ _ | DrawWatermarkImage _ _ _ _
  | StrokeText _ _ _ | FillText _ _ _ => (s, stack)
  end.

Definition exec (c : context) (calls : list op) : context := foldl exec_op c calls.

(** The state a function reached, whether it returned or not. *)
Definition reached {A : Type} (o : outcome A) : A :=
  match o with
  | Returns a => a
  | Hangs a => a
  end.

End MediaDisplayEffects.

(** ** The watermark tiling in binary64 arithmetic

    The tiling loops of [drawImageToCanvas] once more, with JavaScript's
    numbers as IEEE 754 binary64 values: whether a position is drawn is
    decided by comparisons of rounded values, so the rounding of every
    operation matters here. *)

Module MediaDisplay64.
Import PrimFloat.

(** What the tiling asks of the browser: [Math.sqrt], [Math.cos] and
    [Math.sin]. *)
Class Platform := {
  Math_sqrt : float → float;
  Math_cos : float → float;
  Math_sin : float → float
}.

(** [Math.PI], the binary64 value nearest to pi. *)
Definition Math_PI : float := 0x1.921fb54442d18p+1%float.

(** The number that an integer is: exact for the integers of magnitude up
    to 2^53, so for every canvas size and every loop counter below. *)
Definition of_Z (z : Z) : float :=
  match z with
  | Z0 => zero
  | Zpos _ => of_uint63 (Uint63.of_Z z)
  | Zneg p => opp (of_uint63 (Uint63.of_Z (Zpos p)))
  end.

(** [Math.ceil]: a number whose exponent is not negative is an integer
    already; the others are of magnitude below 2^53. *)
Definition Math_ceil (x : float) : float :=
  match FloatOps.Prim2SF x with
  | SpecFloat.S754_finite s m e =>
      if (0 <=? e)%Z then x
      else
        let d := (2 ^ (- e))%Z in
        if s then opp (of_Z (Zpos m / d)) else of_Z (- ((- Zpos m) / d))
  | _ => x
  end.

(** Calls on the 2D context made by the tiling, in program order. *)
Inductive call :=
| Save
| Translate (x y : float)
| Rotate (angle : float)
| StrokeText (text : string) (x y : float)
| FillText (text : string) (x y : float)
| Restore.

(** The value of [Math.ceil(diagonal / spacing) + 2] as a loop bound: an
    integer up to 2^53, for which counting up from its negative by [i++] is
    exact; a larger finite number ([Huge]), below which [i++] stops
    advancing; or one of the values that are not finite. *)
Inductive bound :=
| Finite (n : Z)
| Huge
| PosInfinity
| NegInfinity
| NaN.

Definition steps (diagonal spacing : float) : bound :=
  match FloatOps.Prim2SF (Math_ceil (diagonal / spacing) + 2) with
  | SpecFloat.S754_zero _ => Finite 0
  | SpecFloat.S754_finite s m e =>
      let magnitude :=
        if (0 <=? e)%Z then (Zpos m * 2 ^ e)%Z else (Zpos m / 2 ^ (- e))%Z in
      if s then Finite (- magnitude)
      else if (magnitude <=? 2 ^ 53)%Z then Finite magnitude else Huge
  | SpecFloat.S754_infinity false => PosInfinity
  | SpecFloat.S754_infinity true => NegInfinity
  | SpecFloat.S754_nan => NaN
  end.

(** What a run of the tiling comes to: it returns; it never returns and
    makes no further call ([Hangs]); or it never returns while a counter
    that has stopped advancing keeps the loop body running ([Stalls]; the
    calls are those made before the loops). *)
Inductive outcome :=
| Returns (calls : list call)
| Hangs (calls : list call)
| Stalls (calls : list call).

Section WithPlatform.
Context {browser : Platform}.

(** [const angle = -Math.PI / 4] *)
Definition angle : float := (- Math_PI / 4)%float.

(** The position computed for the pair (i, j). *)
Definition position (w h : Z) (spacingX spacingY : float) (i j : Z) : float * float :=
  (of_Z w / 2 + (of_Z i * spacingX * Math_cos angle)
              - (of_Z j * spacingY * Math_sin angle),
   of_Z h / 2 + (of_Z i * spacingX * Math_sin angle)
              + (of_Z j * spacingY * Math_cos angle))%float.

(** Only draw if within canvas bounds (with some margin). *)
Definition in_bounds (w h : Z) (textWidth textHeight : float) (p : float * float) : bool :=
  ltb (- textWidth) p.1 && ltb p.1 (of_Z w + textWidth) &&
  ltb (- textHeight) p.2 && ltb p.2 (of_Z h + textHeight).

(** One copy of the text: save, translate, rotate, stroke, fill, restore. *)
Definition stamp (text : string) (p : float * float) : list call :=
  [Save; Translate p.1 p.2; Rotate angle; StrokeText text 0 0; FillText text 0 0; Restore].

(** The tiling, from "Calculate spacing between watermarks" to the end of
    the nested [for]. A position computed from an infinite counter is
    infinite or NaN and fails the bounds test, so a loop that never ends
    for that reason draws nothing. *)
Definition drawTiling (text : string) (w h : Z) (textWidth textHeight : float)
    (calls : list call) : outcome :=
  let spacingX := (textWidth * 1.5)%float in
  let spacingY := (textHeight * 2)%float in
  let diagonal := Math_sqrt (of_Z w * of_Z w + of_Z h * of_Z h) in
  match steps diagonal spacingX, steps diagonal spacingY with
  | Finite stepsX, Finite stepsY =>
      Returns
        (MediaDisplay.for_range (- stepsX) stepsX (λ i calls,
           MediaDisplay.for_range (- stepsY) stepsY (λ j calls,
             let p := position w h spacingX spacingY i j in
             if in_bounds w h textWidth textHeight p then calls ++ stamp text p
             else calls) calls) calls)
  | Finite stepsX, PosInfinity => if (0 <? stepsX)%Z then Hangs calls else Returns calls
  | Finite stepsX, Huge => if (0 <? stepsX)%Z then Stalls calls else Returns calls
  | Finite _, (NegInfinity | NaN) => Returns calls
  | PosInfinity, _ => Hangs calls
  | Huge, Finite stepsY => if (0 <? stepsY)%Z then Stalls calls else Hangs calls
  | Huge, Huge => Stalls calls
  | Huge, _ => Hangs calls
  | (NegInfinity | NaN), _ => Returns calls
  end.

(** The positions the loops select, in drawing order. *)
Definition selected (w h : Z) (textWidth textHeight : float) (stepsX stepsY : Z)
  : list (float * float) :=
  flat_map (λ i,
    flat_map (λ j,
      let p := position w h (textWidth * 1.5) (textHeight * 2) i j in
      if in_bounds w h textWidth textHeight p then [p] else [])
    (MediaDisplay.range (- stepsY) stepsY))
  (MediaDisplay.range (- stepsX) stepsX).

End WithPlatform.

End MediaDisplay64.

(** ** Test fixtures: a file system and a stand-in browser to run the
    model on *)

Module Fixtures.
Import JS Fs MediaDisplay.

(** An application directory with an images folder and a sibling folder
    whose name starts the same way. *)
Definition app_files : gmap string node :=
  list_to_map
    [ ("/", Dir ["app"]);
      ("/app", Dir ["public"]);
      ("/app/public", Dir ["images"; "images-private"]);
      ("/app/public/images", Dir ["notes.txt"; "cat.PNG"; "dog.jpeg"; "icon.constructor"]);
      ("/app/public/images/notes.txt", File [x6e; x6f]);
      ("/app/public/images/cat.PNG", File [x01; x02; x03]);
      ("/app/public/images/dog.jpeg", File [x04]);
      ("/app/public/images/icon.constructor", File [x07]);
      ("/app/public/images-private", Dir ["secret.png"]);
      ("/app/public/images-private/secret.png", File [x2a; x2b]) ].

Definition app_world : world := World app_files [].

(** A browser with rational stand-ins: an integer square root, the values
    of cosine and sine at -pi/4 to four digits, and a text measure
    proportional to the font size and the number of characters. *)
#[global] Instance test_browser : Platform := {|
  Math_sqrt q := inject_Z (Z.sqrt (Qceiling q));
  Math_cos _ := (7071 # 10000)%Q;
  Math_sin _ := (- (7071 # 10000))%Q;
  Math_PI := (355 # 113)%Q;
  measureText fontSize text :=
    (fontSize * (6 # 10) * inject_Z (Z.of_nat (String.length text)))%Q
|}.

End Fixtures.

Module Fixtures64.
Import PrimFloat.

(** A browser for the binary64 tiling: the correctly rounded square root,
    and the values of [Math.cos] and [Math.sin] at -pi/4. *)
#[global] Instance test_browser : MediaDisplay64.Platform := {|
  MediaDisplay64.Math_sqrt := PrimFloat.sqrt;
  MediaDisplay64.Math_cos _ := 0x1.6a09e667f3bcdp-1%float;
  MediaDisplay64.Math_sin _ := (-0x1.6a09e667f3bccp-1)%float
|}.

End Fixtures64.

(* ================================================================== *)
(** * Properties *)
(* ================================================================== *)

Module HomeProps.
Import Home.

(** The handler either hits one of the five combinations, calls
    [preventDefault] and returns [false], or leaves the event alone. *)
Lemma handleKeyDown_cases (e : KeyboardEvent) :
  (suppressed e ∧ handleKeyDown e = (preventDefault e, Some false)) ∨
  (¬ suppressed e ∧ handleKeyDown e = (e, None)).
Proof.
  unfold handleKeyDown, suppressed, is_Ctrl_s, is_Ctrl_Shift_I, is_F12,
    is_Ctrl_Shift_C, is_Ctrl_u.
  destruct (ctrlKey e), (shiftKey e); simpl;
    repeat case_bool_decide; simpl; try (left; split; [tauto | reflexivity]);
    right; (split; [intuition congruence | reflexivity]).
Qed.

(** C9. The keydown suppression handler calls [preventDefault] exactly on
    Ctrl+'s', Ctrl+Shift+'I', 'F12', Ctrl+Shift+'C' and Ctrl+'u', and
    returns every other key event unmodified. *)
Theorem handleKeyDown_suppresses_exactly_five (e : KeyboardEvent) :
  ((is_Ctrl_s e ∨ is_Ctrl_Shift_I e ∨ is_F12 e ∨ is_Ctrl_Shift_C e ∨ is_Ctrl_u e)
     ↔ handleKeyDown e = (preventDefault e, Some false)) ∧
  (¬ (is_Ctrl_s e ∨ is_Ctrl_Shift_I e ∨ is_F12 e ∨ is_Ctrl_Shift_C e ∨ is_Ctrl_u e)
     ↔ handleKeyDown e = (e, None)).
Proof.
  fold (suppressed e).
  destruct (handleKeyDown_cases e) as [[Hs He] | [Hs He]]; rewrite He.
  - split; split; intros H; done.
  - split; split; intros H; done.
Qed.

Example ctrl_s_is_suppressed :
  handleKeyDown (KeyEvent "s" true false false false false)
  = (KeyEvent "s" true false false false true, Some false).
Proof. reflexivity. Qed.

Example ctrl_shift_s_passes :
  handleKeyDown (KeyEvent "S" true true false false false)
  = (KeyEvent "S" true true false false false, None).
Proof. reflexivity. Qed.

Lemma handleVideoPlay_other (st : page) (c v : HTMLVideoElement) :
  currentlyPlayingVideoRef st = Some c → c ≠ v →
  handleVideoPlay v st
  = Page (Some v) (playing st ∖ {[ c ]}) (trace st ++ [Pause c; SetCurrent v]).
Proof.
  intros Hc Hne. unfold handleVideoPlay. rewrite Hc.
  rewrite bool_decide_eq_true_2 by done.
  unfold set_current, pause; simpl. by rewrite <- app_assoc.
Qed.

Lemma handleVideoPlay_ref (st : page) (v : HTMLVideoElement) :
  currentlyPlayingVideoRef (handleVideoPlay v st) = Some v.
Proof. reflexivity. Qed.

Lemma step_preserves (st : page) (e : event) :
  only_current_plays st → only_current_plays (step st e).
Proof.
  unfold only_current_plays. intros Hinv. destruct e as [v | v]; simpl.
  - unfold handleVideoPlay; simpl.
    destruct (currentlyPlayingVideoRef st) as [c |]; simpl.
    + case_bool_decide; simpl; [set_solver |].
      assert (c = v) by (destruct (decide (c = v)); [done | contradiction]).
      set_solver.
    + set_solver.
  - destruct (currentlyPlayingVideoRef st); set_solver.
Qed.

Lemma run_preserves (es : list event) (st : page) :
  only_current_plays st → only_current_plays (run st es).
Proof.
  revert st. induction es as [| e es IH]; intros st Hinv; simpl; [done |].
  apply IH. by apply step_preserves.
Qed.

Lemma only_current_size (st : page) :
  only_current_plays st → size (playing st) ≤ 1.
Proof.
  unfold only_current_plays. intros Hinv.
  destruct (currentlyPlayingVideoRef st) as [c |].
  - pose proof (subseteq_size _ _ Hinv) as Hle.
    rewrite size_singleton in Hle. lia.
  - pose proof (subseteq_size _ _ Hinv) as Hle.
    rewrite size_empty in Hle. lia.
Qed.

(** C10. When [handleVideoPlay] is called with a video other than the tracked
    one, the tracked video is paused before the new one is recorded, and
    after any sequence of play (and stop) events at most one video plays. *)
Theorem at_most_one_video_plays :
  (∀ (st : page) (c v : HTMLVideoElement),
     currentlyPlayingVideoRef st = Some c → c ≠ v →
     trace (handleVideoPlay v st) = trace st ++ [Pause c; SetCurrent v] ∧
     (c ∉ playing (handleVideoPlay v st)) ∧
     currentlyPlayingVideoRef (handleVideoPlay v st) = Some v) ∧
  (∀ es : list event, size (playing (run initial es)) ≤ 1).
Proof.
  split.
  - intros st c v Hc Hne. rewrite (handleVideoPlay_other st c v Hc Hne); simpl.
    split; [done |]. split; [set_solver | done].
  - intros es. apply only_current_size, run_preserves.
    unfold only_current_plays; simpl. set_solver.
Qed.

Example two_plays :
  let st := run initial [Play 1; Play 2] in
  playing st = {[ 2 ]} ∧ trace st = [SetCurrent 1; Pause 1; SetCurrent 2].
Proof. split; [| reflexivity]. apply set_eq. intros x. vm_compute. set_solver. Qed.

End HomeProps.

Module JSProps.
Import JS.

Lemma endsWith_nil (suf : string) :
  endsWith "" suf = String.eqb "" suf || false.
Proof. reflexivity. Qed.

Lemma endsWith_cons (c : ascii) (s suf : string) :
  endsWith (String c s) suf = String.eqb (String c s) suf || endsWith s suf.
Proof. reflexivity. Qed.

Lemma endsWith_spec (s suf : string) :
  endsWith s suf = true ↔ ∃ stem, s = stem +:+ suf.
Proof.
  induction s as [| c s IH].
  - rewrite endsWith_nil, orb_false_r, String.eqb_eq. split.
    + intros <-. by exists "".
    + intros [stem H]. destruct stem; simpl in H; [done | discriminate].
  - rewrite endsWith_cons, orb_true_iff, String.eqb_eq, IH. split.
    + intros [<- | [stem ->]]; [by exists "" | by exists (String c stem)].
    + intros [stem H]. destruct stem as [| c' stem]; simpl in H; [by left |].
      right. exists stem. by inversion H.
Qed.

Lemma test_extension_spec (extensions : list string) (name : string) :
  test_extension extensions name = true ↔ has_extension extensions name.
Proof.
  unfold test_extension, has_extension. rewrite existsb_exists. split.
  - intros [e [Hin Hend]]. apply endsWith_spec in Hend as [stem Hstem].
    exists e, stem. split; [by apply list_elem_of_In | done].
  - intros [e [stem [Hin Hstem]]]. exists e. split; [by apply list_elem_of_In |].
    apply endsWith_spec. by exists stem.
Qed.

End JSProps.

(** Unfolding of the handlers' monadic steps. *)
Ltac io_unfold :=
  unfold Fs.try_catch, Fs.existsSync, Fs.readFile, Fs.readdir, Fs.mkdirSync,
    Fs.writeFile, Fs.record, Fs.get_files, Fs.set_files, Fs.throw,
    mbind, Fs.io_bind, mret, Fs.io_ret in *; simpl in *.

Module FilesRouteProps.
Import JS Path Fs Http FilesRoute JSProps.

Lemma GET_readdir (cwd : string) (searchParams : list (string * string)) (w : world) :
  let type := get searchParams "type" in
  match (readdir (folderPath cwd type) w).1 with
  | Ok entries =>
      (GET cwd searchParams w).1
      = Ok (NextResponse_json [("files", JStrings (List.filter (keep type) entries))] 200)
  | Throw _ =>
      (GET cwd searchParams w).1
      = Ok (NextResponse_json [("error", JString "Failed to read files")] 500)
  end.
Proof.
  intros type. unfold GET. fold type. io_unfold.
  destruct (resolve (files w) (folderPath cwd type)) as [[content | entries] |]; reflexivity.
Qed.

(** C5. GET /api/files answers with the entries of public/images (type
    'images') or public/videos (any other type) whose names end, without
    regard to case, in a dot and one of the listed extensions, in directory
    order; it answers 500 'Failed to read files', without file names,
    exactly when reading the directory fails. *)
Theorem GET_lists_matching_entries
    (cwd : string) (searchParams : list (string * string)) (w : world) :
  let type := get searchParams "type" in
  let folder :=
    if bool_decide (type = Some "images") then join [join [cwd; "public"]; "images"]
    else join [join [cwd; "public"]; "videos"] in
  let extensions :=
    if bool_decide (type = Some "images") then ["jpg"; "jpeg"; "png"; "gif"; "webp"; "svg"]
    else ["mp4"; "webm"; "ogg"; "mov"] in
  let r := (GET cwd searchParams w).1 in
  match (readdir folder w).1 with
  | Ok entries =>
      r = Ok (NextResponse_json [("files", JStrings (List.filter (keep type) entries))] 200)
  | Throw _ =>
      r = Ok (NextResponse_json [("error", JString "Failed to read files")] 500)
  end ∧
  (∀ name : string, keep type name = true ↔ has_extension extensions name) ∧
  (status_of r = Some 500 ↔ ∃ e, (readdir folder w).1 = Throw e).
Proof.
  intros type folder extensions r.
  assert (Hfolder : folder = folderPath cwd type) by reflexivity.
  pose proof (GET_readdir cwd searchParams w) as Hget. simpl in Hget.
  fold type in Hget. rewrite <- Hfolder in Hget. fold r in Hget.
  split; [exact Hget |]. split.
  - intros name. unfold keep, extensions.
    case_bool_decide; apply test_extension_spec.
  - destruct ((readdir folder w).1) as [entries | e]; rewrite Hget; simpl.
    + split; [discriminate | intros [e He]; discriminate].
    + split; [by exists e | done].
Qed.

Example GET_images_example :
  (GET "/app" [("type", "images")] Fixtures.app_world).1
  = Ok (NextResponse_json [("files", JStrings ["cat.PNG"; "dog.jpeg"])] 200).
Proof. vm_compute. reflexivity. Qed.

Example GET_videos_missing_folder :
  (GET "/app" [] Fixtures.app_world).1
  = Ok (NextResponse_json [("error", JString "Failed to read files")] 500).
Proof. vm_compute. reflexivity. Qed.

End FilesRouteProps.

Module MediaRouteProps.
Import JS Path Fs Http MediaRoute.

(** The handler, case by case. *)
Lemma GET_cases (cwd : string) (searchParams : list (string * string)) (w : world) :
  let r := (GET cwd searchParams w).1 in
  match get searchParams "file", get searchParams "type" with
  | Some fileName, Some type =>
      if bool_decide (fileName = "") || bool_decide (type = "") then r = Ok missing_parameter
      else
        let folder := folderPath cwd type in
        let filePath := join [folder; fileName] in
        match resolve (files w) filePath with
        | None => r = Ok file_not_found
        | Some n =>
            if startsWith filePath folder then
              match n with
              | File content => r = Ok (served type fileName content)
              | Dir _ => r = Ok failed_to_serve
              end
            else r = Ok file_not_found
        end
  | _, _ => r = Ok missing_parameter
  end.
Proof.
  intros r. subst r. unfold GET.
  destruct (get searchParams "file") as [fileName |]; simpl; [| reflexivity].
  destruct (get searchParams "type") as [type |]; simpl;
    [| by rewrite orb_true_r].
  destruct (bool_decide (fileName = "") || bool_decide (type = "")); [reflexivity |].
  io_unfold.
  destruct (resolve (files w) (join [folderPath cwd type; fileName])) as [n |] eqn:Hres.
  - rewrite bool_decide_eq_true_2 by eauto. simpl.
    destruct (startsWith (join [folderPath cwd type; fileName]) (folderPath cwd type));
      simpl; [| reflexivity].
    rewrite Hres. by destruct n.
  - rewrite bool_decide_eq_false_2; [reflexivity |]. by intros [? ?].
Qed.



(** What the check before reading does establish: the path of a served
    file starts, as a string, with the folder path. *)
Lemma GET_served_path_has_prefix
    (cwd fileName type : string) (w : world) (content : list byte) :
  fileName ≠ "" → type ≠ "" →
  (GET cwd [("file", fileName); ("type", type)] w).1 = Ok (served type fileName content) →
  startsWith (join [folderPath cwd type; fileName]) (folderPath cwd type) = true.
Proof.
  intros Hf Ht Hr.
  pose proof (GET_cases cwd [("file", fileName); ("type", type)] w) as H.
  simpl in H. rewrite Hr in H.
  rewrite !(bool_decide_eq_false_2 (_ = "")) in H by done. simpl in H.
  destruct (resolve (files w) (join [folderPath cwd type; fileName])) as [n |];
    [| discriminate H].
  destruct (startsWith _ _); [reflexivity | discriminate H].
Qed.

(** C3. The request for "../images-private/secret.png" with type 'images'
    is answered with the bytes of a file that is not inside public/images:
    the joined path passes the string-prefix check. *)
Theorem GET_serves_file_of_sibling_folder :
  let searchParams := [("file", "../images-private/secret.png"); ("type", "images")] in
  let result := GET "/app" searchParams Fixtures.app_world in
  join [folderPath "/app" "images"; "../images-private/secret.png"]
  = "/app/public/images-private/secret.png" ∧
  result.1 = Ok (served "images" "../images-private/secret.png" [x2a; x2b]) ∧
  calls result.2 = [ ExistsSync "/app/public/images-private/secret.png";
                     ReadFile "/app/public/images-private/secret.png" ] ∧
  ¬ inside "/app/public/images" "/app/public/images-private/secret.png".
Proof.
  split; [vm_compute; reflexivity |].
  split; [vm_compute; reflexivity |].
  split; [vm_compute; reflexivity |].
  intros [rest [_ Heq]]. simpl in Heq. discriminate Heq.
Qed.

(** The table lookups of [contentType], for the extensions of the tables. *)
Lemma contentType_tables :
  (contentType "images" "a.jpg" = Str "image/jpeg" ∧
   contentType "images" "a.JPEG" = Str "image/jpeg" ∧
   contentType "images" "a.png" = Str "image/png" ∧
   contentType "images" "a.gif" = Str "image/gif" ∧
   contentType "images" "a.webp" = Str "image/webp" ∧
   contentType "images" "a.b.SVG" = Str "image/svg+xml") ∧
  (contentType "videos" "a.mp4" = Str "video/mp4" ∧
   contentType "videos" "a.WebM" = Str "video/webm" ∧
   contentType "videos" "a.ogg" = Str "video/ogg" ∧
   contentType "videos" "a.mov" = Str "video/quicktime").
Proof. vm_compute. repeat split. Qed.

(** An extension that is neither in the table nor a property inherited
    from [Object.prototype] gets the default. *)
Lemma contentType_default (type fileName : string) :
  let ext := default "" (extension fileName) in
  imageTypes !! ext = None → videoTypes !! ext = None →
  (list_to_map Object_prototype : gmap string value) !! ext = None →
  contentType type fileName
  = Str (if bool_decide (type = "images") then "image/jpeg" else "video/mp4").
Proof.
  intros ext Hi Hv Hp. unfold contentType, get_property. fold ext.
  rewrite Hi, Hv, Hp. by case_bool_decide.
Qed.

(** C7. A file whose extension is "constructor", which is in neither
    table, is served with the text of the inherited [Object] function as
    its Content-Type, not with image/jpeg. *)
Theorem GET_content_type_of_inherited_property :
  let searchParams := [("file", "icon.constructor"); ("type", "images")] in
  let r := (GET "/app" searchParams Fixtures.app_world).1 in
  extension "icon.constructor" = Some "constructor" ∧
  imageTypes !! "constructor" = None ∧
  r = Ok (served "images" "icon.constructor" [x07]) ∧
  header (served "images" "icon.constructor" [x07]) "Content-Type"
  = Some "function Object() { [native code] }".
Proof. vm_compute. repeat split. Qed.

End MediaRouteProps.

Module UploadRouteProps.
Import JS Path Fs Http UploadRoute.

Lemma existsSync_run (p : string) (w : world) :
  existsSync p w
  = (Ok (bool_decide (is_Some (resolve (files w) p))),
     World (files w) (calls w ++ [ExistsSync p])).
Proof. reflexivity. Qed.



(** After a successful write the path names a file with exactly the data. *)
Lemma writeFile_ok (p : string) (data : list byte) (w w' : world) :
  writeFile p data w = (Ok (), w') → resolve (files w') p = Some (File data).
Proof.
  io_unfold. unfold resolve. destruct (endsWith p "/"); [discriminate |].
  simpl. destruct (files w !! p) as [[c | es] |].
  - intros [= <-]. simpl. apply lookup_insert_eq.
  - discriminate.
  - destruct (files w !! dirname p) as [[c | es] |]; try discriminate.
    destruct (name_too_long (basename p)); [discriminate |].
    intros [= <-]. simpl. apply lookup_insert_eq.
Qed.

(** The handler never throws: an exception of the [try] block becomes the
    500 response. *)
Lemma POST_catches (cwd : string)
    (request_formData : result (list (string * FormDataEntryValue))) (w : world) :
  match upload cwd request_formData w with
  | (Ok resp, w') => POST cwd request_formData w = (Ok resp, w')
  | (Throw _, w') => POST cwd request_formData w = (Ok failed_to_upload, w')
  end.
Proof.
  unfold POST, try_catch.
  by destruct (upload cwd request_formData w) as [[resp | e] w'].
Qed.

(** The [try] block on a form whose [file] entry is a [File]. *)
Lemma upload_file (cwd name : string) (content : list byte)
    (formData : list (string * FormDataEntryValue)) (w : world) :
  get formData "file" = Some (FFile name content) →
  let folder := folderPath cwd (get formData "type") in
  upload cwd (Ok formData) w
  = ((present ← existsSync folder;
      (if negb present then mkdirSync folder else mret ());;
      writeFile (join [folder; name]) content;;
      mret (uploaded name)) : io response) w.
Proof.
  intros Hfile folder. unfold upload, mbind, io_bind, mret, io_ret. cbv zeta.
  rewrite Hfile. reflexivity.
Qed.

(** The handler on a form with a [File]: check the folder, create it if
    absent, write the file. *)
Lemma POST_file_steps (cwd name : string) (content : list byte)
    (formData : list (string * FormDataEntryValue)) (w : world) :
  get formData "file" = Some (FFile name content) →
  let folder := folderPath cwd (get formData "type") in
  let filePath := join [folder; name] in
  let w1 := World (files w) (calls w ++ [ExistsSync folder]) in
  let ensured :=
    if bool_decide (is_Some (resolve (files w) folder)) then (Ok (), w1)
    else mkdirSync folder w1 in
  POST cwd (Ok formData) w
  = match ensured with
    | (Ok _, w2) =>
        match writeFile filePath content w2 with
        | (Ok _, w3) => (Ok (uploaded name), w3)
        | (Throw _, w3) => (Ok failed_to_upload, w3)
        end
    | (Throw _, w2) => (Ok failed_to_upload, w2)
    end.
Proof.
  intros Hfile folder filePath w1 ensured.
  pose proof (POST_catches cwd (Ok formData) w) as Hcatch.
  rewrite (upload_file cwd name content formData w Hfile) in Hcatch.
  fold folder in Hcatch. fold filePath in Hcatch.
  unfold mbind at 1, io_bind in Hcatch. rewrite existsSync_run in Hcatch.
  fold w1 in Hcatch. subst ensured.
  destruct (bool_decide (is_Some (resolve (files w) folder))); simpl in Hcatch.
  - unfold mbind, io_bind, mret, io_ret in Hcatch.
    destruct (writeFile filePath content w1) as [[[] | e] w3]; exact Hcatch.
  - unfold mbind, io_bind, mret, io_ret in Hcatch.
    destruct (mkdirSync folder w1) as [[[] | e] w2]; [| exact Hcatch].
    destruct (writeFile filePath content w2) as [[[] | e] w3]; exact Hcatch.
Qed.


(** In this file system the upload succeeds whenever the folder is there
    and the target path, directly inside it, has a name within [NAME_MAX]
    and does not name a directory. *)
Lemma POST_succeeds_in_existing_folder (cwd name : string) (content : list byte)
    (formData : list (string * FormDataEntryValue)) (w : world) (entries : list string) :
  get formData "file" = Some (FFile name content) →
  let folder := folderPath cwd (get formData "type") in
  let filePath := join [folder; name] in
  files w !! folder = Some (Dir entries) →
  resolve (files w) folder = Some (Dir entries) →
  endsWith filePath "/" = false →
  dirname filePath = folder →
  name_too_long (basename filePath) = false →
  (∀ es, files w !! filePath ≠ Some (Dir es)) →
  (POST cwd (Ok formData) w).1 = Ok (uploaded name).
Proof.
  intros Hfile folder filePath Hdir Hres Hslash Hparent Hshort Hfree.
  pose proof (POST_catches cwd (Ok formData) w) as Hcatch.
  rewrite (upload_file cwd name content formData w Hfile) in Hcatch.
  fold folder in Hcatch. fold filePath in Hcatch.
  unfold mbind at 1, io_bind in Hcatch. rewrite existsSync_run in Hcatch.
  rewrite bool_decide_eq_true_2 in Hcatch by (rewrite Hres; eauto).
  io_unfold. rewrite Hslash in Hcatch.
  destruct (files w !! filePath) as [[c | es] |] eqn:Hpath.
  - by rewrite Hcatch.
  - by destruct (Hfree es).
  - rewrite Hparent, Hdir, Hshort in Hcatch. by rewrite Hcatch.
Qed.

Example POST_video_example :
  let result :=
    POST "/app" (Ok [("file", FFile "clip.mp4" [x09; x0a]); ("type", FText "videos")])
      Fixtures.app_world in
  result.1 = Ok (uploaded "clip.mp4") ∧
  calls result.2 = [ ExistsSync "/app/public/videos"; MkdirSync "/app/public/videos";
                     WriteFile "/app/public/videos/clip.mp4" [x09; x0a] ] ∧
  (readFile "/app/public/videos/clip.mp4" result.2).1 = Ok [x09; x0a] ∧
  (readdir "/app/public/videos" result.2).1 = Ok ["clip.mp4"] ∧
  (readdir "/app/public" result.2).1 = Ok ["images"; "images-private"; "videos"].
Proof. vm_compute. repeat split. Qed.

Example POST_not_form_data :
  (POST "/app" (Throw "TypeError: Content-Type was not multipart/form-data") Fixtures.app_world).1
  = Ok failed_to_upload.
Proof. reflexivity. Qed.

End UploadRouteProps.

Module MediaDisplayProps.
Import JS MediaDisplay.
Local Open Scope Q_scope.

Lemma lt_spec (a b : Q) : lt a b = true ↔ a < b.
Proof.
  unfold lt. rewrite negb_true_iff. split.
  - intros Hb. apply Qnot_le_lt. intros Hle.
    apply Qle_bool_iff in Hle. congruence.
  - intros Hlt. destruct (Qle_bool b a) eqn:Hb; [| reflexivity].
    apply Qle_bool_iff in Hb. exfalso. by apply (Qlt_not_le a b).
Qed.

Lemma gt_spec (a b : Q) : gt a b = true ↔ b < a.
Proof. apply lt_spec. Qed.

Lemma inject_Z_nonneg (z : Z) : (0 ≤ z)%Z → 0 <= inject_Z z.
Proof. intros Hz. change 0 with (inject_Z 0). by rewrite <- Zle_Qle. Qed.

Lemma in_range (lo hi i : Z) : In i (range lo hi) ↔ (lo ≤ i < hi)%Z.
Proof.
  unfold range. rewrite in_map_iff. split.
  - intros [k [<- Hk]]. apply in_seq in Hk. lia.
  - intros Hi. exists (Z.to_nat (i - lo)). split; [lia |]. apply in_seq. lia.
Qed.

Lemma iterate_ext {S : Type} (f g : Z → S → S) (n : nat) (i : Z) (s : S) :
  (∀ k x, f k x = g k x) → iterate n i f s = iterate n i g s.
Proof.
  intros Hfg. revert i s. induction n as [| n IH]; intros i s; simpl; [done |].
  by rewrite Hfg, IH.
Qed.

Lemma iterate_append {A : Type} (f : Z → list A) (n : nat) (i : Z) (l : list A) :
  iterate n i (λ k acc, acc ++ f k) l
  = l ++ flat_map f (map (λ k, i + Z.of_nat k)%Z (seq 0 n)).
Proof.
  revert i l. induction n as [| n IH]; intros i l.
  - simpl. by rewrite app_nil_r.
  - cbn [iterate]. rewrite IH. cbn [seq map flat_map].
    rewrite <- app_assoc, Z.add_0_r. do 2 f_equal.
    rewrite <- seq_shift, map_map. f_equal.
    apply map_ext. intros k. lia.
Qed.

(** A loop that only appends to the list of calls appends, for each index
    of the range in turn, what its body appends. *)
Lemma for_range_append {A : Type} (f : Z → list A) (lo hi : Z) (l : list A) :
  for_range lo hi (λ k acc, acc ++ f k) l = l ++ flat_map f (range lo hi).
Proof. apply iterate_append. Qed.

Lemma flat_map_nested {A B C : Type} (f : B → list C) (g : A → list B) (l : list A) :
  flat_map f (flat_map g l) = flat_map (λ x, flat_map f (g x)) l.
Proof.
  induction l as [| x l IH]; simpl; [done |]. by rewrite flat_map_app, IH.
Qed.


Section WithPlatform.
Context {browser : Platform}.








(** Without a watermark text, drawing an image makes the four calls that
    draw the image and nothing else. *)
Lemma drawImageToCanvas_without_text (fullSize : bool)
    (canvas : HTMLCanvasElement) (img : HTMLImageElement) (parent : option Element) :
  ∃ c : HTMLCanvasElement,
    drawImageToCanvas fullSize "" (Some canvas) (Some img) parent true = Returns (Some c) ∧
    ctx_calls c
    = ctx_calls canvas ++
        [ SetImageSmoothingEnabled true;
          SetImageSmoothingQuality (if fullSize then "high" else "low");
          ClearRect 0 0 (inject_Z (width c)) (inject_Z (height c));
          DrawImage 0 0 (inject_Z (width c)) (inject_Z (height c)) ].
Proof.
  unfold drawImageToCanvas.
  destruct (displaySize fullSize img parent) as [displayWidth displayHeight].
  simpl. eexists. split; reflexivity.
Qed.


End WithPlatform.


(** C8. In grid mode, a square container of 1000 pixels and an image of
    1600 by 800 give a canvas 1600 wide: the limit is applied with the
    image's aspect ratio, whichever side of the container is longer. *)
Theorem grid_canvas_wider_than_limit :
  ∃ c : HTMLCanvasElement,
    drawImageToCanvas false "" (Some blank_canvas) (Some (Img 1600 800))
      (Some (Container 1000 1000)) true = Returns (Some c) ∧
    width c = 1600%Z ∧ height c = 800%Z ∧ (800 < width c)%Z.
Proof. eexists. split; [vm_compute; reflexivity |]. repeat split. Qed.

(** The limit as the component with the image watermark applies it: with
    the container's own aspect ratio, both sides end up within 800. *)
Lemma image_watermark_displaySize_within_limit
    (img : HTMLImageElement) (container : Element) :
  (0 < clientWidth container)%Z → (0 < clientHeight container)%Z →
  (MediaDisplayImage.displaySize img (Some container)).1 <= 800 ∧
  (MediaDisplayImage.displaySize img (Some container)).2 <= 800.
Proof.
  intros Hw Hh. unfold MediaDisplayImage.displaySize, MediaDisplayImage.MAX_RESOLUTION.
  set (dw := inject_Z (clientWidth container)).
  set (dh := inject_Z (clientHeight container)).
  assert (Hdw : 0 < dw).
  { unfold dw. change 0 with (inject_Z 0). by rewrite <- Zlt_Qlt. }
  assert (Hdh : 0 < dh).
  { unfold dh. change 0 with (inject_Z 0). by rewrite <- Zlt_Qlt. }
  destruct (gt dw 800 || gt dh 800) eqn:Hover.
  - destruct (gt dw dh) eqn:Hwide; cbn [fst snd].
    + apply gt_spec in Hwide. split; [lra |].
      assert (Hone : 1 <= dw / dh) by (apply Qle_shift_div_l; lra).
      apply Qle_shift_div_r; lra.
    + assert (Hle : dw <= dh).
      { apply Qnot_lt_le. intros Hlt. apply gt_spec in Hlt. congruence. }
      split; [| lra].
      assert (Hone : dw / dh <= 1) by (apply Qle_shift_div_r; lra).
      lra.
  - apply orb_false_elim in Hover as [Hw8 Hh8]. cbn [fst snd]. split.
    + apply Qnot_lt_le. intros Hlt. apply gt_spec in Hlt. congruence.
    + apply Qnot_lt_le. intros Hlt. apply gt_spec in Hlt. congruence.
Qed.




Example tiling_of_small_canvas :
  ∃ positions : list (Q * Q),
    drawTiling "TMBC" 100 100 48 20 [] = Returns (flat_map (stamp "TMBC") positions) ∧
    map (λ p, (Qred p.1, Qred p.2)) positions
    = [ (-18247 # 625, 45392 # 625); (-1139 # 1250, 126139 # 1250);
        (-821 # 125, -821 # 125); (5429 # 250, 5429 # 250); (50, 50);
        (19571 # 250, 19571 # 250); (13321 # 125, 13321 # 125);
        (126139 # 1250, -1139 # 1250); (80747 # 625, 17108 # 625) ].
Proof.
  exists (selected 100 100 48 20 4 6). split; vm_compute; reflexivity.
Qed.

(** A watermark text of zero measured width makes the step count infinite:
    the loop never ends and nothing is drawn. *)
Example tiling_of_zero_width_text :
  drawTiling "" 100 100 0 20 [] = Hangs [].
Proof. vm_compute. reflexivity. Qed.

End MediaDisplayProps.

Module MediaDisplay64Props.
Import PrimFloat MediaDisplay64 MediaDisplayProps.

Section WithPlatform.
Context {browser : Platform}.

Lemma in_selected64 (w h : Z) (textWidth textHeight : float) (stepsX stepsY : Z)
    (p : float * float) :
  In p (selected w h textWidth textHeight stepsX stepsY)
  ↔ ∃ i j : Z,
      (- stepsX ≤ i < stepsX)%Z ∧ (- stepsY ≤ j < stepsY)%Z ∧
      p = position w h (textWidth * 1.5) (textHeight * 2) i j ∧
      in_bounds w h textWidth textHeight p = true.
Proof.
  unfold selected. rewrite in_flat_map. split.
  - intros [i [Hi Hp]]. apply in_flat_map in Hp as [j [Hj Hp]].
    apply in_range in Hi, Hj. exists i, j. cbv zeta in Hp.
    destruct (in_bounds w h textWidth textHeight _) eqn:Hb; [| by destruct Hp].
    destruct Hp as [<- | []]. done.
  - intros [i [j [Hi [Hj [-> Hb]]]]]. exists i. split; [by apply in_range |].
    apply in_flat_map. exists j. split; [by apply in_range |].
    cbv zeta. rewrite Hb. by left.
Qed.

(** With loop bounds that are integers the tiling returns, having appended
    one stamp per selected position. *)
Lemma drawTiling_finite64 (text : string) (w h : Z) (textWidth textHeight : float)
    (stepsX stepsY : Z) (calls : list call) :
  let diagonal := Math_sqrt (of_Z w * of_Z w + of_Z h * of_Z h) in
  steps diagonal (textWidth * 1.5) = Finite stepsX →
  steps diagonal (textHeight * 2) = Finite stepsY →
  drawTiling text w h textWidth textHeight calls
  = Returns (calls ++ flat_map (stamp text)
               (selected w h textWidth textHeight stepsX stepsY)).
Proof.
  intros diagonal HX HY. unfold drawTiling. fold diagonal. rewrite HX, HY. f_equal.
  unfold selected. rewrite flat_map_nested.
  rewrite <- for_range_append. unfold MediaDisplay.for_range. apply iterate_ext.
  intros i acc. rewrite flat_map_nested. rewrite <- for_range_append.
  apply iterate_ext. intros j acc'. cbv zeta.
  destruct (in_bounds w h textWidth textHeight _); simpl; by rewrite ?app_nil_r.
Qed.

(** C2, amended. When both step counts are finite numbers (integers up to
    2^53), the tiling returns, and what it draws is the text, rotated by
    -pi/4, at exactly the positions (x, y) computed, each operation in
    binary64 arithmetic and in the order of the code, for the integer
    pairs (i, j) within the step bounds that pass the bounds test on the
    computed values; the drawn stamps do not depend on anything but the
    inputs. *)
Theorem tiling_draws_exactly_the_grid (text : string) (w h : Z) (tw fs : float)
    (stepsX stepsY : Z) :
  let sx := (tw * 1.5)%float in
  let sy := (fs * 2)%float in
  let diagonal := Math_sqrt (of_Z w * of_Z w + of_Z h * of_Z h) in
  steps diagonal sx = Finite stepsX →
  steps diagonal sy = Finite stepsY →
  let a := (- Math_PI / 4)%float in
  let x (i j : Z) :=
    (of_Z w / 2 + (of_Z i * sx * Math_cos a) - (of_Z j * sy * Math_sin a))%float in
  let y (i j : Z) :=
    (of_Z h / 2 + (of_Z i * sx * Math_sin a) + (of_Z j * sy * Math_cos a))%float in
  ∃ positions : list (float * float),
    (∀ calls : list call,
       drawTiling text w h tw fs calls
       = Returns (calls ++
           flat_map (λ p, [ Save; Translate p.1 p.2; Rotate a;
                            StrokeText text 0 0; FillText text 0 0; Restore ])
             positions)) ∧
    (∀ px py : float,
       In (px, py) positions
       ↔ ∃ i j : Z,
           (- stepsX ≤ i < stepsX)%Z ∧ (- stepsY ≤ j < stepsY)%Z ∧
           px = x i j ∧ py = y i j ∧
           PrimFloat.ltb (- tw) px = true ∧ PrimFloat.ltb px (of_Z w + tw) = true ∧
           PrimFloat.ltb (- fs) py = true ∧ PrimFloat.ltb py (of_Z h + fs) = true).
Proof.
  intros sx sy diagonal HX HY a x y.
  exists (selected w h tw fs stepsX stepsY). split.
  - intros calls. by apply drawTiling_finite64.
  - intros px py. rewrite in_selected64. unfold in_bounds. cbn [fst snd]. split.
    + intros (i & j & Hi & Hj & Hp & Hb). exists i, j.
      unfold position in Hp. injection Hp as -> ->.
      rewrite !andb_true_iff in Hb. tauto.
    + intros (i & j & Hi & Hj & -> & -> & Hb). exists i, j.
      split; [done |]. split; [done |]. split; [reflexivity |].
      rewrite !andb_true_iff. tauto.
Qed.

End WithPlatform.

(** C2, as stated, fails for a text of measured width 0: the step count
    of the outer loop is then infinite, the centre of the canvas (the
    position of the pair (0, 0)) passes the bounds test, and yet the code
    draws nothing and never returns. *)
Lemma tiling_of_zero_width_text_draws_nothing :
  drawTiling "TMBC" 100 100 0 20 [] = Hangs [] ∧
  in_bounds 100 100 0 20 (position 100 100 (0 * 1.5) (20 * 2) 0 0) = true.
Proof. split; vm_compute; reflexivity. Qed.

Lemma tiling_grid_witness :
  let tw := 48%float in
  let fs := 20%float in
  let sx := (tw * 1.5)%float in
  let sy := (fs * 2)%float in
  let diagonal := Math_sqrt (of_Z 100 * of_Z 100 + of_Z 100 * of_Z 100) in
  let a := (- Math_PI / 4)%float in
  let x (i j : Z) :=
    (of_Z 100 / 2 + (of_Z i * sx * Math_cos a) - (of_Z j * sy * Math_sin a))%float in
  let y (i j : Z) :=
    (of_Z 100 / 2 + (of_Z i * sx * Math_sin a) + (of_Z j * sy * Math_cos a))%float in
  steps diagonal sx = Finite 4 ∧ steps diagonal sy = Finite 6 ∧
  ∃ positions : list (float * float),
    (∀ calls : list call,
       drawTiling "TMBC" 100 100 tw fs calls
       = Returns (calls ++
           flat_map (λ p, [ Save; Translate p.1 p.2; Rotate a;
                            StrokeText "TMBC" 0 0; FillText "TMBC" 0 0; Restore ])
             positions)) ∧
    (∀ px py : float,
       In (px, py) positions
       ↔ ∃ i j : Z,
           (- 4 ≤ i < 4)%Z ∧ (- 6 ≤ j < 6)%Z ∧
           px = x i j ∧ py = y i j ∧
           PrimFloat.ltb (- tw) px = true ∧ PrimFloat.ltb px (of_Z 100 + tw) = true ∧
           PrimFloat.ltb (- fs) py = true ∧ PrimFloat.ltb py (of_Z 100 + fs) = true).
Proof.
  split; [vm_compute; reflexivity |]. split; [vm_compute; reflexivity |].
  apply (tiling_draws_exactly_the_grid (browser := Fixtures64.test_browser)
           "TMBC" 100 100 48 20 4 6); vm_compute; reflexivity.
Defined.

(** Rounding decides at the border: here the position of the pair (2, 1)
    comes out at exactly the right bound and is not drawn, and 18 stamps
    are. *)
Example tiling_border_position :
  let tw := 0x1.35dc024aaad01p+4%float in
  let p := position 100 100 (tw * 1.5) (20 * 2) 2 1 in
  p.1 = (of_Z 100 + tw)%float ∧ in_bounds 100 100 tw 20 p = false ∧
  steps (Math_sqrt (of_Z 100 * of_Z 100 + of_Z 100 * of_Z 100)) (tw * 1.5) = Finite 7 ∧
  length (selected 100 100 tw 20 7 6) = 18.
Proof. repeat split; vm_compute; reflexivity. Qed.

Example tiling_of_small_canvas64 :
  length (selected 100 100 48 20 4 6) = 9 ∧
  hd_error (selected 100 100 48 20 4 6)
  = Some ((-0x1.d322a66bd514dp+4)%float, 0x1.22827999fcef3p+6%float).
Proof. split; vm_compute; reflexivity. Qed.

End MediaDisplay64Props.

Module PathProps.
Import JS Path PathNames JSProps.

Lemma string_app_cons (x : ascii) (a b : string) :
  String x a +:+ b = String x (a +:+ b).
Proof. reflexivity. Qed.

Lemma string_app_nil_l (a : string) : "" +:+ a = a.
Proof. reflexivity. Qed.

Lemma string_app_assoc (a b c : string) : (a +:+ b) +:+ c = a +:+ (b +:+ c).
Proof.
  induction a as [| x a IH]; [done |]. by rewrite !string_app_cons, IH.
Qed.

Lemma string_app_nil_r (a : string) : a +:+ "" = a.
Proof.
  induction a as [| x a IH]; [done |]. by rewrite string_app_cons, IH.
Qed.

Lemma string_length_app (a b : string) :
  String.length (a +:+ b) = String.length a + String.length b.
Proof.
  induction a as [| x a IH]; [done |]. rewrite string_app_cons. simpl. by rewrite IH.
Qed.

Lemma split_nonempty (c : ascii) (s : string) : split c s ≠ [].
Proof.
  destruct s as [| a s]; simpl; [done |].
  destruct (Ascii.eqb a c); [done |]. by destruct (split c s).
Qed.

Lemma split_cons_ne (c a : ascii) (s : string) :
  Ascii.eqb a c = false →
  ∃ h t, split c s = h :: t ∧ split c (String a s) = String a h :: t.
Proof.
  intros Hne. simpl. rewrite Hne.
  destruct (split c s) as [| h t] eqn:Hs; [by destruct (split_nonempty c s) |].
  by exists h, t.
Qed.

(** Splitting at an occurrence of the separator. *)
Lemma split_app (c : ascii) (s t : string) :
  split c (s +:+ String c t) = split c s ++ split c t.
Proof.
  induction s as [| a s IH].
  - rewrite string_app_nil_l. simpl. by rewrite Ascii.eqb_refl.
  - rewrite string_app_cons. simpl.
    destruct (Ascii.eqb a c) eqn:Hac; [by rewrite IH |].
    rewrite IH. destruct (split c s) as [| h tl] eqn:Hs;
      [by destruct (split_nonempty c s) | done].
Qed.

Lemma split_without (c : ascii) (s : string) :
  mem_char c s = false → split c s = [s].
Proof.
  induction s as [| a s IH]; simpl; [done |].
  intros Hm. apply orb_false_elim in Hm as [Hac Hm].
  rewrite Hac, (IH Hm). done.
Qed.

Lemma concat_snoc (sep : string) (l : list string) (x : string) :
  l ≠ [] → String.concat sep (l ++ [x]) = String.concat sep l +:+ sep +:+ x.
Proof.
  induction l as [| a l IH]; [done |]. intros _.
  destruct l as [| b l]; simpl; [done |].
  simpl in IH. rewrite IH by done. by rewrite !string_app_assoc.
Qed.

Lemma split_concat (c : ascii) (l : list string) :
  l ≠ [] → Forall (λ s, mem_char c s = false) l →
  split c (String.concat (String c "") l) = l.
Proof.
  induction l as [| a l IH]; [done |]. intros _ Hall.
  apply Forall_cons in Hall as [Ha Hl].
  destruct l as [| b l]; [by apply split_without |].
  change (String.concat (String c "") (a :: b :: l))
    with (a +:+ String c (String.concat (String c "") (b :: l))).
  rewrite split_app, (split_without c a Ha), IH by done. done.
Qed.

Lemma is_plain_spec (name : string) :
  is_plain name = true →
  name ≠ "" ∧ name ≠ "." ∧ name ≠ ".." ∧ mem_char "/" name = false.
Proof.
  unfold is_plain. rewrite !andb_true_iff, !negb_true_iff, !String.eqb_neq. tauto.
Qed.

Lemma normalize_step_plain (allowAboveRoot : bool) (res : list string) (seg : string) :
  is_plain seg = true → normalize_step allowAboveRoot res seg = seg :: res.
Proof.
  intros Hp. apply is_plain_spec in Hp as (H1 & H2 & H3 & _).
  unfold normalize_step. by rewrite !bool_decide_eq_false_2.
Qed.

Lemma foldl_normalize_plain (allowAboveRoot : bool) (segs res : list string) :
  Forall (λ s, is_plain s = true) segs →
  foldl (normalize_step allowAboveRoot) res segs = rev segs ++ res.
Proof.
  revert res. induction segs as [| s segs IH]; intros res Hall; simpl; [done |].
  apply Forall_cons in Hall as [Hs Hall].
  rewrite normalize_step_plain, IH by done. by rewrite <- app_assoc.
Qed.

Lemma split_elements (c : ascii) (s : string) :
  Forall (λ x, mem_char c x = false) (split c s).
Proof.
  induction s as [| a s IH]; simpl; [by repeat constructor |].
  destruct (Ascii.eqb a c) eqn:Hac; [by constructor |].
  destruct (split c s) as [| h t]; [by repeat constructor; simpl; rewrite Hac |].
  apply Forall_cons in IH as [Hh Ht]. constructor; [| done].
  simpl. by rewrite Hac.
Qed.

(** Below the root nothing but plain segments stays on the stack. *)
Lemma normalize_step_keeps_plain (res : list string) (seg : string) :
  mem_char "/" seg = false →
  Forall (λ s, is_plain s = true) res →
  Forall (λ s, is_plain s = true) (normalize_step false res seg).
Proof.
  intros Hsep Hres. unfold normalize_step.
  repeat case_bool_decide; simpl; try done.
  - destruct res as [| top rest]; [done |]. apply Forall_cons in Hres as [Htop Hrest].
    case_bool_decide; [by constructor | done].
  - constructor; [| done]. unfold is_plain.
    rewrite Hsep. simpl. rewrite !andb_true_r, !andb_true_iff, !negb_true_iff, !String.eqb_neq.
    tauto.
Qed.

Lemma foldl_normalize_keeps_plain (segs res : list string) :
  Forall (λ s, mem_char "/" s = false) segs →
  Forall (λ s, is_plain s = true) res →
  Forall (λ s, is_plain s = true) (foldl (normalize_step false) res segs).
Proof.
  revert res. induction segs as [| s segs IH]; intros res Hsegs Hres; simpl; [done |].
  apply Forall_cons in Hsegs as [Hs Hsegs].
  apply IH; [done |]. by apply normalize_step_keeps_plain.
Qed.

Lemma concat_plain_nonempty (segs : list string) :
  segs ≠ [] → Forall (λ s, is_plain s = true) segs → String.concat "/" segs ≠ "".
Proof.
  destruct segs as [| a segs]; [done |]. intros _ Hall.
  apply Forall_cons in Hall as [Ha _]. apply is_plain_spec in Ha as [Ha _].
  destruct a; [done |]. by destruct segs.
Qed.

Lemma endsWith_last_split (c : ascii) (s : string) :
  endsWith s (String c "") = true → last (split c s) = Some "".
Proof.
  intros He. apply endsWith_spec in He as [stem ->].
  rewrite split_app. simpl. apply last_snoc.
Qed.

Lemma startsWith_app (p rest : string) : startsWith (p +:+ rest) p = true.
Proof.
  unfold startsWith. induction p as [| a p IH]; simpl; [by destruct rest |].
  destruct (ascii_dec a a); [done | contradiction].
Qed.

Lemma startsWith_slash (s : string) :
  startsWith s "/" = true → ∃ t, s = String "/" t.
Proof.
  unfold startsWith. intros Hp. apply prefix_correct in Hp.
  destruct s as [| a t]; [discriminate |]. exists t.
  cbn [String.length substring] in Hp. destruct t; by injection Hp as ->.
Qed.

(** [path.normalize] on an absolute path without a trailing separator
    whose stack of segments is not empty. *)
Lemma normalize_absolute (p : string) :
  startsWith p "/" = true → endsWith p "/" = false →
  let stack := foldl (normalize_step false) [] (split "/" p) in
  stack ≠ [] →
  normalize p = "/" +:+ String.concat "/" (rev stack) ∧
  Forall (λ s, is_plain s = true) (rev stack).
Proof.
  intros Habs Htrail stack Hstack.
  assert (Hplain : Forall (λ s, is_plain s = true) (rev stack)).
  { apply Forall_rev. apply foldl_normalize_keeps_plain; [apply split_elements | done]. }
  split; [| done]. unfold normalize.
  rewrite bool_decide_eq_false_2 by (intros ->; discriminate).
  rewrite Habs, Htrail. simpl. unfold normalizeString. fold stack.
  rewrite bool_decide_eq_false_2; [done |].
  apply concat_plain_nonempty; [| done].
  intros Hrev. apply Hstack. by rewrite <- (rev_involutive stack), Hrev.
Qed.

Lemma normal_absolute_split (p : string) (segs : list string) :
  segs ≠ [] → Forall (λ s, is_plain s = true) segs →
  p = "/" +:+ String.concat "/" segs →
  split "/" p = "" :: segs.
Proof.
  intros Hne Hall ->. rewrite string_app_cons, string_app_nil_l. simpl. f_equal.
  apply split_concat; [done |].
  eapply Forall_impl; [exact Hall |]. intros s Hs.
  by apply is_plain_spec in Hs as (_ & _ & _ & Hs).
Qed.

Lemma normal_absolute_no_trailing (p : string) :
  normal_absolute p → endsWith p "/" = false.
Proof.
  intros (segs & Hne & Hall & Hp).
  destruct (endsWith p "/") eqn:He; [| done].
  apply endsWith_last_split in He.
  rewrite (normal_absolute_split p segs Hne Hall Hp) in He.
  destruct (exists_last Hne) as (init & x & ->).
  rewrite app_comm_cons, last_snoc in He. injection He as ->.
  apply Forall_app in Hall as [_ Hx]. apply Forall_cons in Hx as [Hx _].
  discriminate Hx.
Qed.

(** A path in normal form is a fixed point of [path.normalize]. *)
Lemma normalize_normal_absolute (p : string) :
  normal_absolute p → normalize p = p.
Proof.
  intros Hn. pose proof (normal_absolute_no_trailing p Hn) as Htrail.
  destruct Hn as (segs & Hne & Hall & Hp).
  assert (Hstack : foldl (normalize_step false) [] (split "/" p) = rev segs).
  { rewrite (normal_absolute_split p segs Hne Hall Hp). simpl.
    rewrite foldl_normalize_plain by done. apply app_nil_r. }
  destruct (normalize_absolute p) as [Hnorm _].
  - rewrite Hp. apply startsWith_app.
  - exact Htrail.
  - rewrite Hstack. intros Hrev. apply Hne.
    by rewrite <- (rev_involutive segs), Hrev.
  - rewrite Hnorm, Hstack, rev_involutive. by rewrite Hp.
Qed.

Lemma normal_absolute_snoc (p name : string) :
  normal_absolute p → is_plain name = true → normal_absolute (p +:+ "/" +:+ name).
Proof.
  intros (segs & Hne & Hall & ->) Hname. exists (segs ++ [name]).
  split; [by destruct segs |]. split; [apply Forall_app; by repeat constructor |].
  rewrite concat_snoc by done. by rewrite !string_app_assoc.
Qed.

Lemma join_two (p name : string) :
  p ≠ "" → name ≠ "" → join [p; name] = normalize (p +:+ "/" +:+ name).
Proof.
  intros Hp Hname. unfold join.
  rewrite filter_cons_True by done. rewrite filter_cons_True by done.
  reflexivity.
Qed.

(** Joining a plain name to a path in normal form appends it. *)
Lemma join_plain (p name : string) :
  normal_absolute p → is_plain name = true →
  join [p; name] = p +:+ "/" +:+ name.
Proof.
  intros Hp Hname. pose proof (normal_absolute_snoc p name Hp Hname) as Hn.
  destruct Hp as (segs & Hne & Hall & Hp).
  apply is_plain_spec in Hname as (Hname & _).
  rewrite join_two by (first [done | by rewrite Hp]).
  by apply normalize_normal_absolute.
Qed.

(** Joining a plain name to an absolute path gives a path in normal form. *)
Lemma join_absolute_normal (cwd name : string) :
  startsWith cwd "/" = true → is_plain name = true →
  normal_absolute (join [cwd; name]).
Proof.
  intros Habs Hname. pose proof (is_plain_spec name Hname) as (Hne & _ & _ & Hsep).
  assert (Hcwd : cwd ≠ "") by (intros ->; discriminate).
  rewrite join_two by done.
  set (p := cwd +:+ "/" +:+ name).
  assert (Hsplit : split "/" p = split "/" cwd ++ [name]).
  { unfold p. change (cwd +:+ "/" +:+ name) with (cwd +:+ String "/" name).
    by rewrite split_app, (split_without "/" name Hsep). }
  assert (Hstack : foldl (normalize_step false) [] (split "/" p)
                   = name :: foldl (normalize_step false) [] (split "/" cwd)).
  { rewrite Hsplit, foldl_app. simpl. by apply normalize_step_plain. }
  destruct (normalize_absolute p) as [Hnorm Hplain].
  - unfold p. destruct (startsWith_slash cwd Habs) as [t ->].
    apply (startsWith_app "/" (t +:+ "/" +:+ name)).
  - destruct (endsWith p "/") eqn:He; [| done].
    apply endsWith_last_split in He. rewrite Hsplit, last_snoc in He.
    by injection He as ->.
  - by rewrite Hstack.
  - exists (rev (foldl (normalize_step false) [] (split "/" p))).
    split; [| by split]. rewrite Hstack. simpl.
    intros Heq. apply app_eq_nil in Heq as [_ Heq]. discriminate Heq.
Qed.

Lemma concat_split (c : ascii) (s : string) :
  String.concat (String c "") (split c s) = s.
Proof.
  induction s as [| a s IH]; [done |]. simpl.
  destruct (Ascii.eqb a c) eqn:Hac.
  - apply Ascii.eqb_eq in Hac as ->.
    destruct (split c s) as [| h t] eqn:Hs; [by destruct (split_nonempty c s) |].
    change (String.concat (String c "") ("" :: h :: t))
      with (String c (String.concat (String c "") (h :: t))).
    by rewrite IH.
  - destruct (split c s) as [| h t] eqn:Hs; [by destruct (split_nonempty c s) |].
    destruct t as [| h' t]; simpl in *; [by rewrite IH |].
    rewrite string_app_cons. by rewrite IH.
Qed.

(** The parts of a plain name joined to a path in normal form. *)
Lemma dirname_basename_plain (p name : string) :
  normal_absolute p → is_plain name = true →
  dirname (p +:+ "/" +:+ name) = p ∧ basename (p +:+ "/" +:+ name) = name ∧
  endsWith (p +:+ "/" +:+ name) "/" = false ∧
  p +:+ "/" +:+ name ≠ p.
Proof.
  intros Hp Hname. pose proof (normal_absolute_snoc p name Hp Hname) as Hn.
  pose proof (is_plain_spec name Hname) as (Hne & _ & _ & Hsep).
  assert (Hsplit : split "/" (p +:+ "/" +:+ name) = split "/" p ++ [name]).
  { change (p +:+ "/" +:+ name) with (p +:+ String "/" name).
    by rewrite split_app, (split_without "/" name Hsep). }
  assert (Hpne : p ≠ "") by (destruct Hp as (segs & _ & _ & ->); done).
  split; [| split; [| split]].
  - unfold dirname. rewrite Hsplit, removelast_last, concat_split.
    by rewrite bool_decide_eq_false_2.
  - unfold basename. by rewrite Hsplit, last_snoc.
  - by apply normal_absolute_no_trailing.
  - intros Heq. apply (f_equal String.length) in Heq.
    rewrite !string_length_app in Heq. simpl in Heq. lia.
Qed.

(** The folders of the application are in normal form. *)
Lemma folder_normal (cwd sub : string) :
  startsWith cwd "/" = true → is_plain sub = true →
  normal_absolute (join [join [cwd; "public"]; sub]) ∧
  join [join [cwd; "public"]; sub] = join [cwd; "public"] +:+ "/" +:+ sub.
Proof.
  intros Habs Hsub.
  pose proof (join_absolute_normal cwd "public" Habs eq_refl) as Hpublic.
  rewrite (join_plain _ sub Hpublic Hsub). split; [| done].
  by apply normal_absolute_snoc.
Qed.

End PathProps.

Module StoreProps.
Import JS Path Fs Http PathNames PathProps UploadRoute UploadRouteProps.

Lemma add_entry_keeps_files (d name q : string) (c : list byte) (fs : gmap string node) :
  fs !! q = Some (File c) → add_entry d name fs !! q = Some (File c).
Proof.
  intros Hq. unfold add_entry. destruct (fs !! d) as [[c' | es] |] eqn:Hd; try done.
  rewrite lookup_insert_ne; [done |]. intros ->. congruence.
Qed.

Lemma mkdir_one_keeps_files (p q : string) (c : list byte) (fs fs' : gmap string node) :
  mkdir_one (Ok fs) p = Ok fs' → fs !! q = Some (File c) → fs' !! q = Some (File c).
Proof.
  unfold mkdir_one. intros Hmk Hq.
  destruct (fs !! p) as [[c' | es] |] eqn:Hp; try discriminate.
  - by injection Hmk as <-.
  - destruct (name_too_long (basename p)); [discriminate |].
    injection Hmk as <-. rewrite lookup_insert_ne by (intros ->; congruence).
    by apply add_entry_keeps_files.
Qed.

Lemma mkdir_fold_throw (e : string) (l : list string) :
  foldl mkdir_one (Throw e) l = Throw e.
Proof. induction l as [| p l IH]; simpl; [done |]. exact IH. Qed.

Lemma mkdir_fold_keeps_files (l : list string) (q : string) (c : list byte)
    (fs fs' : gmap string node) :
  foldl mkdir_one (Ok fs) l = Ok fs' → fs !! q = Some (File c) → fs' !! q = Some (File c).
Proof.
  revert fs. induction l as [| p l IH]; intros fs Hfold Hq.
  - simpl in Hfold. by injection Hfold as <-.
  - cbn [foldl] in Hfold. destruct (mkdir_one (Ok fs) p) as [fs1 | e] eqn:Hone.
    + apply (IH fs1 Hfold). by apply (mkdir_one_keeps_files p q c fs fs1).
    + by rewrite mkdir_fold_throw in Hfold.
Qed.

Lemma mkdirSync_keeps_files (p q : string) (c : list byte) (w : world) :
  files w !! q = Some (File c) → files (mkdirSync p w).2 !! q = Some (File c).
Proof.
  intros Hq. io_unfold.
  destruct (foldl mkdir_one (Ok (files w)) (ancestors p)) as [fs' | e] eqn:Hfold; simpl;
    [| done].
  by apply (mkdir_fold_keeps_files (ancestors p) q c (files w) fs').
Qed.

Lemma writeFile_keeps_other_files (p q : string) (data c : list byte) (w : world) :
  q ≠ p → files w !! q = Some (File c) →
  files (writeFile p data w).2 !! q = Some (File c).
Proof.
  intros Hne Hq. io_unfold. destruct (endsWith p "/"); [done |].
  destruct (files w !! p) as [[c' | es] |] eqn:Hp; simpl; try done.
  - by rewrite lookup_insert_ne.
  - destruct (files w !! dirname p) as [[c' | es] |] eqn:Hd; simpl; try done.
    destruct (name_too_long (basename p)); simpl; [done |].
    rewrite lookup_insert_ne by done.
    rewrite lookup_insert_ne by (intros <-; congruence). done.
Qed.

Lemma POST_file_result (cwd name : string) (content : list byte)
    (formData : list (string * FormDataEntryValue)) (w : world) :
  get formData "file" = Some (FFile name content) →
  ((POST cwd (Ok formData) w).1 = Ok (uploaded name) ∧
   resolve (files (POST cwd (Ok formData) w).2)
     (join [folderPath cwd (get formData "type"); name]) = Some (File content)) ∨
  (POST cwd (Ok formData) w).1 = Ok failed_to_upload.
Proof.
  intros Hfile. rewrite (POST_file_steps cwd name content formData w Hfile).
  destruct (if bool_decide (is_Some (resolve (files w) _)) then _ else _)
    as [[[] | e] w2]; [| by right].
  pose proof (writeFile_ok (join [folderPath cwd (get formData "type"); name]) content w2)
    as Hok.
  destruct (writeFile _ content w2) as [[[] | e] w3]; [| by right].
  left. split; [done |]. by apply Hok.
Qed.

End StoreProps.

Module RoundTripProps.
Import JS Path Fs Http PathNames PathProps UploadRoute UploadRouteProps StoreProps.

Lemma resolve_no_trailing (fs : gmap string node) (p : string) :
  endsWith p "/" = false → resolve fs p = fs !! p.
Proof. intros He. unfold resolve. by rewrite He. Qed.

(** The three routes agree on the folder of a type. *)
Lemma folders_agree (cwd t : string) :
  folderPath cwd (Some (FText t)) = MediaRoute.folderPath cwd t ∧
  folderPath cwd (Some (FText t)) = FilesRoute.folderPath cwd (Some t).
Proof.
  unfold folderPath, MediaRoute.folderPath, FilesRoute.folderPath, is_images.
  split; [done |]. repeat case_bool_decide; congruence.
Qed.

Lemma upload_folder_normal (cwd t : string) :
  startsWith cwd "/" = true → normal_absolute (folderPath cwd (Some (FText t))).
Proof.
  intros Habs. unfold folderPath, is_images.
  case_bool_decide; by apply folder_normal.
Qed.

Lemma upload_path (cwd t name : string) :
  startsWith cwd "/" = true → is_plain name = true →
  join [folderPath cwd (Some (FText t)); name]
  = folderPath cwd (Some (FText t)) +:+ "/" +:+ name.
Proof. intros Habs Hname. apply join_plain; [by apply upload_folder_normal | done]. Qed.

(** X1. For an absolute working directory, a plain file name and a non-empty
    type, a file that the upload route stored is served back by the media
    route with exactly the uploaded bytes. *)
Theorem uploaded_file_is_served (cwd name t : string) (content : list byte) (w : world) :
  startsWith cwd "/" = true → is_plain name = true → t ≠ "" →
  let up := POST cwd (Ok [("file", FFile name content); ("type", FText t)]) w in
  up.1 = Ok (uploaded name) →
  (MediaRoute.GET cwd [("file", name); ("type", t)] up.2).1
  = Ok (MediaRoute.served t name content).
Proof.
  intros Habs Hname Ht up Hup.
  pose proof (is_plain_spec name Hname) as (Hne & _).
  pose proof (POST_file_steps cwd name content
                [("file", FFile name content); ("type", FText t)] w eq_refl) as Hsteps.
  cbv zeta in Hsteps. fold up in Hsteps.
  change (get [("file", FFile name content); ("type", FText t)] "type")
    with (Some (FText t)) in Hsteps.
  set (folder := folderPath cwd (Some (FText t))) in *.
  set (filePath := join [folder; name]) in *.
  assert (Hstored : resolve (files up.2) filePath = Some (File content)).
  { destruct (if bool_decide (is_Some (resolve (files w) folder))
              then (Ok (), World (files w) (calls w ++ [ExistsSync folder]))
              else mkdirSync folder (World (files w) (calls w ++ [ExistsSync folder])))
      as [[[] | e] w2]; [| rewrite Hsteps in Hup; discriminate Hup].
    pose proof (writeFile_ok filePath content w2) as Hok.
    destruct (writeFile filePath content w2) as [[[] | e] w3];
      [| rewrite Hsteps in Hup; discriminate Hup].
    rewrite Hsteps. simpl. by apply Hok. }
  pose proof (MediaRouteProps.GET_cases cwd [("file", name); ("type", t)] up.2) as Hget.
  cbv zeta in Hget.
  change (get [("file", name); ("type", t)] "file") with (Some name) in Hget.
  change (get [("file", name); ("type", t)] "type") with (Some t) in Hget.
  cbv iota beta in Hget.
  rewrite !(bool_decide_eq_false_2 (_ = "")) in Hget by done.
  cbn [orb] in Hget.
  destruct (folders_agree cwd t) as [Hagree _]. rewrite <- Hagree in Hget.
  fold folder in Hget. fold filePath in Hget. rewrite Hstored in Hget.
  unfold filePath, folder in Hget.
  rewrite (upload_path cwd t name Habs Hname), startsWith_app in Hget.
  exact Hget.
Qed.

Lemma writeFile_fresh (p : string) (data : list byte) (es : list string) (w : world) :
  endsWith p "/" = false → files w !! p = None → files w !! dirname p = Some (Dir es) →
  writeFile p data w
  = if name_too_long (basename p)
    then (Throw "ENAMETOOLONG", World (files w) (calls w ++ [WriteFile p data]))
    else (Ok (),
          World (<[p := File data]> (<[dirname p := Dir (es ++ [basename p])]> (files w)))
            (calls w ++ [WriteFile p data])).
Proof.
  intros He Hp Hd. io_unfold. rewrite He, Hp, Hd.
  by destruct (name_too_long (basename p)).
Qed.

Lemma writeFile_replace (p : string) (data old : list byte) (w : world) :
  endsWith p "/" = false → files w !! p = Some (File old) →
  writeFile p data w
  = (Ok (), World (<[p := File data]> (files w)) (calls w ++ [WriteFile p data])).
Proof. intros He Hp. io_unfold. by rewrite He, Hp. Qed.

Lemma readdir_dir (p : string) (es : list string) (w : world) :
  endsWith p "/" = false → files w !! p = Some (Dir es) →
  (readdir p w).1 = Ok (sort_names es).
Proof. intros He Hp. io_unfold. by rewrite (resolve_no_trailing _ _ He), Hp. Qed.

(** Sorting keeps the names. *)
Lemma insert_name_Permutation (name : string) (l : list string) :
  insert_name name l ≡ₚ name :: l.
Proof.
  induction l as [| x l IH]; simpl; [done |].
  destruct (String.leb name x); [done |].
  rewrite IH. apply Permutation_swap.
Qed.

Lemma sort_names_Permutation (l : list string) : sort_names l ≡ₚ l.
Proof.
  induction l as [| x l IH]; simpl; [done |].
  by rewrite insert_name_Permutation, IH.
Qed.

Lemma filter_Permutation_bool {A : Type} (f : A → bool) (l l' : list A) :
  l ≡ₚ l' → List.filter f l ≡ₚ List.filter f l'.
Proof.
  induction 1 as [| x l l' Hp IH | x y l | l l' l'' Hp1 IH1 Hp2 IH2]; simpl.
  - done.
  - destruct (f x); [by constructor | done].
  - destruct (f x), (f y); try done. apply Permutation_swap.
  - by etransitivity.
Qed.

(** The listing of a folder whose entries are known. *)
Lemma listing_of_dir (cwd t : string) (es : list string) (w : world) :
  startsWith cwd "/" = true →
  files w !! folderPath cwd (Some (FText t)) = Some (Dir es) →
  (FilesRoute.GET cwd [("type", t)] w).1
  = Ok (NextResponse_json
          [("files", JStrings (List.filter (FilesRoute.keep (Some t)) (sort_names es)))] 200).
Proof.
  intros Habs Hdir.
  pose proof (FilesRouteProps.GET_readdir cwd [("type", t)] w) as Hget.
  cbv zeta in Hget. change (get [("type", t)] "type") with (Some t) in Hget.
  destruct (folders_agree cwd t) as [_ Hagree]. rewrite <- Hagree in Hget.
  rewrite (readdir_dir _ es) in Hget; [exact Hget | | exact Hdir].
  apply normal_absolute_no_trailing. by apply upload_folder_normal.
Qed.

(** X2. When a file uploaded under a name that the folder does not hold
    yet is stored, the files route afterwards lists the names it listed
    before and, if the new name has an extension of the type, the new
    name once more; where the new name stands among the others is up to
    the order of the directory listing. *)
Theorem fresh_upload_is_listed (cwd name t : string) (content : list byte)
    (entries : list string) (w : world) :
  startsWith cwd "/" = true → is_plain name = true →
  let folder := folderPath cwd (Some (FText t)) in
  files w !! folder = Some (Dir entries) →
  files w !! (folder +:+ "/" +:+ name) = None →
  let up := POST cwd (Ok [("file", FFile name content); ("type", FText t)]) w in
  up.1 = Ok (uploaded name) →
  ∃ before after : list string,
    (FilesRoute.GET cwd [("type", t)] w).1
    = Ok (NextResponse_json [("files", JStrings before)] 200) ∧
    (FilesRoute.GET cwd [("type", t)] up.2).1
    = Ok (NextResponse_json [("files", JStrings after)] 200) ∧
    after ≡ₚ before ++ (if FilesRoute.keep (Some t) name then [name] else []).
Proof.
  intros Habs Hname folder Hdir Hfree up Hup.
  pose proof (upload_folder_normal cwd t Habs) as Hnormal. fold folder in Hnormal.
  pose proof (dirname_basename_plain folder name Hnormal Hname)
    as (Hdirname & Hbasename & Htrail & Hneq).
  pose proof (normal_absolute_no_trailing folder Hnormal) as Hfolder_trail.
  pose proof (POST_file_steps cwd name content
                [("file", FFile name content); ("type", FText t)] w eq_refl) as Hsteps.
  cbv zeta in Hsteps. fold up in Hsteps.
  change (get [("file", FFile name content); ("type", FText t)] "type")
    with (Some (FText t)) in Hsteps.
  rewrite (upload_path cwd t name Habs Hname) in Hsteps. fold folder in Hsteps.
  rewrite (resolve_no_trailing _ _ Hfolder_trail), Hdir in Hsteps.
  rewrite bool_decide_eq_true_2 in Hsteps by eauto.
  rewrite (writeFile_fresh _ content entries) in Hsteps;
    [| done | done | by rewrite Hdirname].
  rewrite Hdirname, Hbasename in Hsteps.
  destruct (name_too_long name); [by rewrite Hsteps in Hup |].
  exists (List.filter (FilesRoute.keep (Some t)) (sort_names entries)),
         (List.filter (FilesRoute.keep (Some t)) (sort_names (entries ++ [name]))).
  split; [by apply listing_of_dir |]. split.
  - apply listing_of_dir; [done |]. rewrite Hsteps. simpl. fold folder.
    rewrite lookup_insert_ne by done. apply lookup_insert_eq.
  - rewrite (filter_Permutation_bool _ _ _ (sort_names_Permutation (entries ++ [name]))).
    rewrite (filter_Permutation_bool _ _ _ (sort_names_Permutation entries)).
    rewrite List.filter_app. simpl. by destruct (FilesRoute.keep (Some t) name).
Qed.

(** X3. Uploading a file under a name the folder already holds succeeds
    and overwrites it: the listing of the folder is unchanged and the file
    now reads as the uploaded bytes. *)
Theorem reupload_replaces_content (cwd name t : string) (content old : list byte)
    (entries : list string) (w : world) :
  startsWith cwd "/" = true → is_plain name = true →
  let folder := folderPath cwd (Some (FText t)) in
  files w !! folder = Some (Dir entries) →
  files w !! (folder +:+ "/" +:+ name) = Some (File old) →
  let up := POST cwd (Ok [("file", FFile name content); ("type", FText t)]) w in
  up.1 = Ok (uploaded name) ∧
  (FilesRoute.GET cwd [("type", t)] up.2).1 = (FilesRoute.GET cwd [("type", t)] w).1 ∧
  (readFile (folder +:+ "/" +:+ name) up.2).1 = Ok content.
Proof.
  intros Habs Hname folder Hdir Hold up.
  pose proof (upload_folder_normal cwd t Habs) as Hnormal. fold folder in Hnormal.
  pose proof (dirname_basename_plain folder name Hnormal Hname)
    as (Hdirname & Hbasename & Htrail & Hneq).
  pose proof (normal_absolute_no_trailing folder Hnormal) as Hfolder_trail.
  pose proof (POST_file_steps cwd name content
                [("file", FFile name content); ("type", FText t)] w eq_refl) as Hsteps.
  cbv zeta in Hsteps. fold up in Hsteps.
  change (get [("file", FFile name content); ("type", FText t)] "type")
    with (Some (FText t)) in Hsteps.
  rewrite (upload_path cwd t name Habs Hname) in Hsteps. fold folder in Hsteps.
  rewrite (resolve_no_trailing _ _ Hfolder_trail), Hdir in Hsteps.
  rewrite bool_decide_eq_true_2 in Hsteps by eauto.
  rewrite (writeFile_replace _ content old) in Hsteps by done.
  split; [by rewrite Hsteps |]. split.
  - rewrite (listing_of_dir cwd t entries w Habs Hdir).
    apply listing_of_dir; [done |]. rewrite Hsteps. simpl. fold folder.
    by rewrite lookup_insert_ne.
  - rewrite Hsteps. io_unfold. rewrite (resolve_no_trailing _ _ Htrail). simpl.
    by rewrite lookup_insert_eq.
Qed.

(** X4. An upload, whether it succeeds or fails, leaves every regular file
    other than its target path with the content it had. *)
Theorem upload_keeps_other_files (cwd name : string) (content c : list byte)
    (formData : list (string * FormDataEntryValue)) (q : string) (w : world) :
  get formData "file" = Some (FFile name content) →
  q ≠ join [folderPath cwd (get formData "type"); name] →
  files w !! q = Some (File c) →
  files (POST cwd (Ok formData) w).2 !! q = Some (File c).
Proof.
  intros Hfile Hq Hc.
  rewrite (POST_file_steps cwd name content formData w Hfile).
  set (folder := folderPath cwd (get formData "type")) in *.
  set (w1 := World (files w) (calls w ++ [ExistsSync folder])).
  assert (Hensured :
    files (if bool_decide (is_Some (resolve (files w) folder)) then (Ok (), w1)
           else mkdirSync folder w1).2 !! q = Some (File c)).
  { destruct (bool_decide (is_Some (resolve (files w) folder))); [done |].
    by apply mkdirSync_keeps_files. }
  destruct (if bool_decide (is_Some (resolve (files w) folder)) then (Ok (), w1)
            else mkdirSync folder w1) as [[[] | e] w2]; simpl in Hensured; [| done].
  pose proof (writeFile_keeps_other_files (join [folder; name]) q content c w2 Hq Hensured)
    as Hwrite.
  by destruct (writeFile (join [folder; name]) content w2) as [[[] | e] w3].
Qed.

Lemma uploaded_file_is_served_witness :
  startsWith "/app" "/" = true ∧ is_plain "new.png" = true ∧ "images" ≠ "" ∧
  (POST "/app" (Ok [("file", FFile "new.png" [x01]); ("type", FText "images")])
     Fixtures.app_world).1 = Ok (uploaded "new.png") ∧
  (MediaRoute.GET "/app" [("file", "new.png"); ("type", "images")]
     (POST "/app" (Ok [("file", FFile "new.png" [x01]); ("type", FText "images")])
        Fixtures.app_world).2).1
  = Ok (MediaRoute.served "images" "new.png" [x01]).
Proof.
  split; [reflexivity |]. split; [reflexivity |]. split; [discriminate |].
  split; [vm_compute; reflexivity |].
  apply (uploaded_file_is_served "/app" "new.png" "images" [x01] Fixtures.app_world);
    [reflexivity | reflexivity | discriminate | vm_compute; reflexivity].
Defined.

Lemma fresh_upload_is_listed_witness :
  let entries := ["notes.txt"; "cat.PNG"; "dog.jpeg"; "icon.constructor"] in
  let up := POST "/app" (Ok [("file", FFile "aaa.png" [x01]); ("type", FText "images")])
              Fixtures.app_world in
  startsWith "/app" "/" = true ∧ is_plain "aaa.png" = true ∧
  files Fixtures.app_world !! folderPath "/app" (Some (FText "images"))
    = Some (Dir entries) ∧
  files Fixtures.app_world !! (folderPath "/app" (Some (FText "images")) +:+ "/" +:+ "aaa.png")
    = None ∧
  up.1 = Ok (uploaded "aaa.png") ∧
  ∃ before after : list string,
    (FilesRoute.GET "/app" [("type", "images")] Fixtures.app_world).1
    = Ok (NextResponse_json [("files", JStrings before)] 200) ∧
    (FilesRoute.GET "/app" [("type", "images")] up.2).1
    = Ok (NextResponse_json [("files", JStrings after)] 200) ∧
    after ≡ₚ before ++ (if FilesRoute.keep (Some "images") "aaa.png"
                        then ["aaa.png"] else []).
Proof.
  split; [reflexivity |]. split; [reflexivity |].
  split; [vm_compute; reflexivity |]. split; [vm_compute; reflexivity |].
  split; [vm_compute; reflexivity |].
  apply (fresh_upload_is_listed "/app" "aaa.png" "images" [x01]
           ["notes.txt"; "cat.PNG"; "dog.jpeg"; "icon.constructor"] Fixtures.app_world);
    [reflexivity | reflexivity | vm_compute; reflexivity | vm_compute; reflexivity
    | vm_compute; reflexivity].
Defined.

(** The new name is listed where sorting puts it. *)
Example fresh_upload_is_listed_first :
  (FilesRoute.GET "/app" [("type", "images")]
     (POST "/app" (Ok [("file", FFile "aaa.png" [x01]); ("type", FText "images")])
        Fixtures.app_world).2).1
  = Ok (NextResponse_json [("files", JStrings ["aaa.png"; "cat.PNG"; "dog.jpeg"])] 200).
Proof. vm_compute. reflexivity. Qed.

Lemma reupload_replaces_content_witness :
  let entries := ["notes.txt"; "cat.PNG"; "dog.jpeg"; "icon.constructor"] in
  let folder := folderPath "/app" (Some (FText "images")) in
  let up := POST "/app" (Ok [("file", FFile "dog.jpeg" [x09; x08]); ("type", FText "images")])
              Fixtures.app_world in
  startsWith "/app" "/" = true ∧ is_plain "dog.jpeg" = true ∧
  files Fixtures.app_world !! folder = Some (Dir entries) ∧
  files Fixtures.app_world !! (folder +:+ "/" +:+ "dog.jpeg") = Some (File [x04]) ∧
  up.1 = Ok (uploaded "dog.jpeg") ∧
  (FilesRoute.GET "/app" [("type", "images")] up.2).1
  = (FilesRoute.GET "/app" [("type", "images")] Fixtures.app_world).1 ∧
  (readFile (folder +:+ "/" +:+ "dog.jpeg") up.2).1 = Ok [x09; x08].
Proof.
  split; [reflexivity |]. split; [reflexivity |].
  split; [vm_compute; reflexivity |]. split; [vm_compute; reflexivity |].
  apply (reupload_replaces_content "/app" "dog.jpeg" "images" [x09; x08] [x04]
           ["notes.txt"; "cat.PNG"; "dog.jpeg"; "icon.constructor"] Fixtures.app_world);
    [reflexivity | reflexivity | vm_compute; reflexivity | vm_compute; reflexivity].
Defined.

Lemma upload_keeps_other_files_witness :
  let formData := [("file", FFile "new.png" [x01]); ("type", FText "images")] in
  get formData "file" = Some (FFile "new.png" [x01]) ∧
  "/app/public/images/cat.PNG" ≠ join [folderPath "/app" (get formData "type"); "new.png"] ∧
  files Fixtures.app_world !! "/app/public/images/cat.PNG" = Some (File [x01; x02; x03]) ∧
  files (POST "/app" (Ok formData) Fixtures.app_world).2 !! "/app/public/images/cat.PNG"
  = Some (File [x01; x02; x03]).
Proof.
  split; [reflexivity |]. split; [vm_compute; discriminate |].
  split; [vm_compute; reflexivity |].
  apply (upload_keeps_other_files "/app" "new.png" [x01] [x01; x02; x03]
           [("file", FFile "new.png" [x01]); ("type", FText "images")]
           "/app/public/images/cat.PNG" Fixtures.app_world);
    [reflexivity | vm_compute; discriminate | vm_compute; reflexivity].
Defined.

End RoundTripProps.

Module EscapeProps.
Import JS Path Fs Http UploadRoute PathNames PathProps StoreProps RoundTripProps.

(** Joining [../name] to a folder gives the name beside the folder. *)
Lemma join_parent (p sub name : string) :
  normal_absolute p → is_plain sub = true → is_plain name = true →
  join [p +:+ "/" +:+ sub; "../" +:+ name] = p +:+ "/" +:+ name.
Proof.
  intros (segs & Hne & Hall & ->) Hsub Hname.
  pose proof (is_plain_spec sub Hsub) as (Hsub0 & _ & Hsub2 & Hsubsep).
  pose proof (is_plain_spec name Hname) as (Hname0 & _ & _ & Hnamesep).
  rewrite join_two; [| by rewrite string_app_cons | done].
  set (all := segs ++ [sub; ".."; name]).
  assert (Hfull : (("/" +:+ String.concat "/" segs) +:+ "/" +:+ sub) +:+ "/" +:+ "../" +:+ name
                  = "/" +:+ String.concat "/" all).
  { unfold all.
    change (segs ++ [sub; ".."; name]) with (segs ++ [sub] ++ [".."] ++ [name]).
    rewrite !app_assoc.
    rewrite !concat_snoc by (by destruct segs).
    rewrite !string_app_assoc. reflexivity. }
  rewrite Hfull.
  assert (Hsplit : split "/" ("/" +:+ String.concat "/" all) = "" :: all).
  { rewrite string_app_cons, string_app_nil_l. simpl. f_equal.
    apply split_concat; [by destruct segs |].
    apply Forall_app. split.
    - eapply Forall_impl; [exact Hall |]. intros s Hs.
      by apply is_plain_spec in Hs as (_ & _ & _ & Hs).
    - by repeat constructor. }
  assert (Hstack : foldl (normalize_step false) [] (split "/" ("/" +:+ String.concat "/" all))
                   = name :: rev segs).
  { rewrite Hsplit. unfold all. cbn [foldl].
    change (normalize_step false [] "") with (@nil string).
    rewrite foldl_app, (foldl_normalize_plain false segs [] Hall), app_nil_r.
    cbn [foldl]. rewrite (normalize_step_plain false _ sub Hsub).
    assert (Hpop : normalize_step false (sub :: rev segs) ".." = rev segs).
    { unfold normalize_step. simpl. by rewrite bool_decide_eq_false_2. }
    rewrite Hpop. by rewrite normalize_step_plain. }
  destruct (normalize_absolute ("/" +:+ String.concat "/" all)) as [Hnorm _].
  - apply (startsWith_app "/").
  - destruct (endsWith _ "/") eqn:He; [| done].
    apply endsWith_last_split in He. rewrite Hsplit in He.
    unfold all in He. change (segs ++ [sub; ".."; name]) with (segs ++ [sub; ".."] ++ [name]) in He.
    rewrite app_comm_cons, app_assoc, last_snoc in He. by injection He.
  - by rewrite Hstack.
  - rewrite Hnorm, Hstack. simpl. rewrite rev_involutive.
    rewrite concat_snoc by done. by rewrite <- !string_app_assoc.
Qed.

(** X24. The upload route does not confine the file name to the folder of
    the type: for an absolute working directory and a plain name, a
    successful upload of a file named [../name] stores the content at
    public/name, beside the folder and not inside it. *)
Theorem upload_name_can_leave_the_folder (cwd name t : string) (content : list byte)
    (w : world) :
  startsWith cwd "/" = true → is_plain name = true →
  let up := POST cwd (Ok [("file", FFile ("../" +:+ name) content); ("type", FText t)]) w in
  up.1 = Ok (uploaded ("../" +:+ name)) →
  files up.2 !! (join [cwd; "public"] +:+ "/" +:+ name) = Some (File content).
Proof.
  intros Habs Hname up Hup.
  destruct (POST_file_result cwd ("../" +:+ name) content
              [("file", FFile ("../" +:+ name) content); ("type", FText t)] w eq_refl)
    as [[_ Hstored] | Hfailed];
    [| fold up in Hfailed; rewrite Hfailed in Hup; inversion Hup].
  fold up in Hstored.
  change (get [("file", FFile ("../" +:+ name) content); ("type", FText t)] "type")
    with (Some (FText t)) in Hstored.
  assert (Hpublic : normal_absolute (join [cwd; "public"])).
  { by apply join_absolute_normal. }
  assert (Hfolder : ∃ sub, is_plain sub = true ∧
            folderPath cwd (Some (FText t)) = join [cwd; "public"] +:+ "/" +:+ sub).
  { unfold folderPath, is_images. case_bool_decide.
    - exists "images". split; [done |]. by apply folder_normal.
    - exists "videos". split; [done |]. by apply folder_normal. }
  destruct Hfolder as (sub & Hsub & Hfolder).
  rewrite Hfolder, (join_parent _ sub name Hpublic Hsub Hname) in Hstored.
  rewrite resolve_no_trailing in Hstored; [done |].
  apply normal_absolute_no_trailing. by apply normal_absolute_snoc.
Qed.

Lemma upload_name_can_leave_the_folder_witness :
  let up := POST "/app" (Ok [("file", FFile ("../" +:+ "x.png") [x01]); ("type", FText "images")])
              Fixtures.app_world in
  startsWith "/app" "/" = true ∧ is_plain "x.png" = true ∧
  up.1 = Ok (uploaded ("../" +:+ "x.png")) ∧
  files up.2 !! (join ["/app"; "public"] +:+ "/" +:+ "x.png") = Some (File [x01]).
Proof.
  split; [reflexivity |]. split; [reflexivity |]. split; [vm_compute; reflexivity |].
  apply (upload_name_can_leave_the_folder "/app" "x.png" "images" [x01] Fixtures.app_world);
    [reflexivity | reflexivity | vm_compute; reflexivity].
Defined.

End EscapeProps.

Module RouteProps.
Import JS Path Fs Http JSProps PathProps.

(** X5. The two GET handlers (files and media) answer with a response for
    every query and every file system, never throw, and leave the file
    system unchanged. *)
Theorem GET_handlers_only_read (cwd : string) (searchParams : list (string * string))
    (w : world) :
  (files (FilesRoute.GET cwd searchParams w).2 = files w ∧
   ∃ resp, (FilesRoute.GET cwd searchParams w).1 = Ok resp) ∧
  (files (MediaRoute.GET cwd searchParams w).2 = files w ∧
   ∃ resp, (MediaRoute.GET cwd searchParams w).1 = Ok resp).
Proof.
  split.
  - unfold FilesRoute.GET. io_unfold.
    destruct (resolve (files w) _) as [[c | es] |]; simpl; eauto.
  - unfold MediaRoute.GET.
    destruct (falsy (get searchParams "file") || falsy (get searchParams "type"));
      [simpl; eauto |].
    io_unfold. destruct (resolve (files w) _) as [n |] eqn:Hres; simpl.
    + destruct (startsWith _ _); simpl; [| eauto].
      rewrite Hres. destruct n; simpl; eauto.
    + eauto.
Qed.

(** X6. The media route touches the file system in one of three ways,
    each with its own answer: not at all, answering 400; with one
    existence test, answering 404; or with one existence test and one read
    of the same path, which exists and starts with the folder of the type,
    answering with the bytes read when the path is a file and 500 when it
    is a directory. Hence an answer of 400 comes with no call and an
    answer of 404 with exactly one existence test. *)
Theorem media_GET_reads_only_checked_path (cwd : string)
    (searchParams : list (string * string)) (w : world) :
  let out := MediaRoute.GET cwd searchParams w in
  ((out.1 = Ok MediaRoute.missing_parameter ∧ calls out.2 = calls w) ∨
   (∃ p, out.1 = Ok MediaRoute.file_not_found ∧ calls out.2 = calls w ++ [ExistsSync p]) ∨
   (∃ fileName type,
      get searchParams "file" = Some fileName ∧ get searchParams "type" = Some type ∧
      let p := join [MediaRoute.folderPath cwd type; fileName] in
      calls out.2 = calls w ++ [ExistsSync p; ReadFile p] ∧
      startsWith p (MediaRoute.folderPath cwd type) = true ∧
      ((∃ content, resolve (files w) p = Some (File content) ∧
                   out.1 = Ok (MediaRoute.served type fileName content)) ∨
       (∃ entries, resolve (files w) p = Some (Dir entries) ∧
                   out.1 = Ok MediaRoute.failed_to_serve)))) ∧
  (status_of out.1 = Some 400 → calls out.2 = calls w) ∧
  (status_of out.1 = Some 404 → ∃ p, calls out.2 = calls w ++ [ExistsSync p]).
Proof.
  intros out.
  assert (Hcases :
    (out.1 = Ok MediaRoute.missing_parameter ∧ calls out.2 = calls w) ∨
    (∃ p, out.1 = Ok MediaRoute.file_not_found ∧ calls out.2 = calls w ++ [ExistsSync p]) ∨
    (∃ fileName type,
       get searchParams "file" = Some fileName ∧ get searchParams "type" = Some type ∧
       let p := join [MediaRoute.folderPath cwd type; fileName] in
       calls out.2 = calls w ++ [ExistsSync p; ReadFile p] ∧
       startsWith p (MediaRoute.folderPath cwd type) = true ∧
       ((∃ content, resolve (files w) p = Some (File content) ∧
                    out.1 = Ok (MediaRoute.served type fileName content)) ∨
        (∃ entries, resolve (files w) p = Some (Dir entries) ∧
                    out.1 = Ok MediaRoute.failed_to_serve)))).
  { subst out. unfold MediaRoute.GET.
    destruct (get searchParams "file") as [fileName |]; [| left; by split].
    destruct (get searchParams "type") as [type |];
      [| left; simpl; rewrite orb_true_r; by split].
    destruct (falsy (Some fileName) || falsy (Some type)); [left; by split |].
    right. io_unfold.
    destruct (resolve (files w) _) as [n |] eqn:Hres; simpl.
    - destruct (startsWith _ _) eqn:Hpre; simpl.
      + right. exists fileName, type. split; [done |]. split; [done |].
        rewrite Hres. destruct n as [content | entries]; simpl.
        * split; [by rewrite <- app_assoc |]. split; [done |]. left. by exists content.
        * split; [by rewrite <- app_assoc |]. split; [done |]. right. by exists entries.
      + left. eexists. by split.
    - left. eexists. by split. }
  split; [exact Hcases |].
  destruct Hcases as [[Hr Hc] | [(p & Hr & Hc) | (fileName & type & _ & _ & Hc & _ & Hr)]].
  - rewrite Hr. split; [done | discriminate].
  - rewrite Hr. split; [discriminate | intros _; by exists p].
  - destruct Hr as [(content & _ & Hr) | (entries & _ & Hr)]; rewrite Hr;
      split; discriminate.
Qed.

Lemma endsWith_two (s u v : string) :
  endsWith s u = true → endsWith s v = true →
  endsWith u v = true ∨ endsWith v u = true.
Proof.
  induction s as [| a s IH]; intros Hu Hv.
  - rewrite endsWith_nil, orb_false_r, String.eqb_eq in Hu, Hv. subst. by left.
  - rewrite endsWith_cons, orb_true_iff, String.eqb_eq in Hu.
    rewrite endsWith_cons, orb_true_iff, String.eqb_eq in Hv.
    destruct Hu as [<- | Hu].
    + left. rewrite endsWith_cons, orb_true_iff, String.eqb_eq. exact Hv.
    + destruct Hv as [<- | Hv]; [| by apply IH].
      right. rewrite endsWith_cons, orb_true_iff. by right.
Qed.

Lemma extensions_do_not_nest :
  forallb (λ e1,
    forallb (λ e2,
      negb (endsWith ("." +:+ e1) ("." +:+ e2)) && negb (endsWith ("." +:+ e2) ("." +:+ e1)))
      FilesRoute.video_extensions)
    FilesRoute.image_extensions = true.
Proof. vm_compute. reflexivity. Qed.

(** X7. A name that the files route keeps for the type images is not kept
    for any other type: the image and video listings of one folder never
    share a name. *)
Theorem listings_are_disjoint (type : option string) (name : string) :
  type ≠ Some "images" →
  FilesRoute.keep (Some "images") name = true → FilesRoute.keep type name = false.
Proof.
  intros Htype Himg. unfold FilesRoute.keep in *.
  rewrite bool_decide_eq_true_2 in Himg by done.
  rewrite bool_decide_eq_false_2 by done.
  destruct (test_extension FilesRoute.video_extensions name) eqn:Hvid; [| done].
  exfalso. unfold test_extension in Himg, Hvid.
  apply existsb_exists in Himg as (e1 & Hin1 & He1).
  apply existsb_exists in Hvid as (e2 & Hin2 & He2).
  pose proof extensions_do_not_nest as Hnest.
  rewrite forallb_forall in Hnest. specialize (Hnest e1 Hin1).
  rewrite forallb_forall in Hnest. specialize (Hnest e2 Hin2).
  apply andb_true_iff in Hnest as [H12 H21]. apply negb_true_iff in H12, H21.
  destruct (endsWith_two _ _ _ He1 He2) as [H | H]; congruence.
Qed.

Lemma listings_are_disjoint_witness :
  Some "videos" ≠ Some "images" ∧
  FilesRoute.keep (Some "images") "clip.PNG" = true ∧
  FilesRoute.keep (Some "videos") "clip.PNG" = false.
Proof.
  split; [discriminate |]. split; [vm_compute; reflexivity |].
  apply (listings_are_disjoint (Some "videos") "clip.PNG");
    [discriminate | vm_compute; reflexivity].
Defined.

End RouteProps.

Module ContentTypeProps.
Import JS Path Fs Http JSProps PathNames PathProps.

Lemma lower_ascii_dot (c : ascii) : Ascii.eqb (lower_ascii c) "." = Ascii.eqb c ".".
Proof. destruct c as [[] [] [] [] [] [] [] []]; reflexivity. Qed.

Lemma lower_ascii_idempotent (c : ascii) : lower_ascii (lower_ascii c) = lower_ascii c.
Proof. destruct c as [[] [] [] [] [] [] [] []]; reflexivity. Qed.

Lemma toLowerCase_idempotent (s : string) : toLowerCase (toLowerCase s) = toLowerCase s.
Proof.
  induction s as [| c s IH]; simpl; [done |]. by rewrite lower_ascii_idempotent, IH.
Qed.

Lemma split_toLowerCase (s : string) :
  split "." (toLowerCase s) = map toLowerCase (split "." s).
Proof.
  induction s as [| a s IH]; [done |]. simpl. rewrite lower_ascii_dot.
  destruct (Ascii.eqb a "."); [by rewrite IH |].
  rewrite IH. destruct (split "." s) as [| h t]; [done | done].
Qed.

Lemma last_map {A B : Type} (f : A → B) (l : list A) : last (map f l) = f <$> last l.
Proof.
  induction l as [| x l IH]; [done |]. destruct l as [| y l]; [done |]. exact IH.
Qed.

(** The extension the media route computes is the part of the lower-cased
    name after its last dot. *)
Lemma extension_lower (fileName : string) :
  MediaRoute.extension fileName = last (split "." (toLowerCase fileName)).
Proof. unfold MediaRoute.extension. by rewrite split_toLowerCase, last_map. Qed.

(** X8. The content type the media route assigns depends on the file name
    only up to letter case. *)
Theorem content_type_ignores_case (type f g : string) :
  toLowerCase f = toLowerCase g →
  MediaRoute.contentType type f = MediaRoute.contentType type g.
Proof.
  intros Hfg. unfold MediaRoute.contentType. by rewrite !extension_lower, Hfg.
Qed.

Lemma extension_of_suffix (name stem e : string) :
  mem_char "." e = false → toLowerCase name = stem +:+ "." +:+ e →
  MediaRoute.extension name = Some e.
Proof.
  intros He Hname. rewrite extension_lower, Hname.
  change (stem +:+ "." +:+ e) with (stem +:+ String "." e).
  by rewrite split_app, (split_without "." e He), last_snoc.
Qed.

Ltac table_entry stem Hname Hext :=
  match type of Hname with
  | _ = _ +:+ "." +:+ ?e =>
      eexists e, _; split;
      [ exists e, stem; split; [apply list_elem_of_here | exact Hname]
      | rewrite (Hext e eq_refl eq_refl); split; vm_compute; reflexivity ]
  end.

(** X9. Every name the files route keeps for a type ends in an extension of
    the media route's table for that type, and the media route serves it
    with the MIME type of that entry (never the fallback, never an
    inherited property). *)
Theorem listed_files_have_table_type (t name : string) :
  FilesRoute.keep (Some t) name = true →
  ∃ e mime : string,
    has_extension [e] name ∧
    (if bool_decide (t = "images") then MediaRoute.imageTypes else MediaRoute.videoTypes)
      !! e = Some mime ∧
    MediaRoute.contentType t name = Str mime.
Proof.
  unfold FilesRoute.keep. intros Hkeep.
  destruct (bool_decide (Some t = Some "images")) eqn:Ht.
  - apply bool_decide_eq_true in Ht. injection Ht as ->.
    apply test_extension_spec in Hkeep as (e & stem & Hin & Hname).
    rewrite bool_decide_eq_true_2 by done.
    assert (Hext : ∀ e', e' = e → mem_char "." e' = false →
                   MediaRoute.extension name = Some e').
    { intros e' -> He'. by apply (extension_of_suffix name stem e). }
    unfold MediaRoute.contentType. rewrite bool_decide_eq_true_2 by done.
    unfold FilesRoute.image_extensions in Hin.
    repeat (apply elem_of_cons in Hin as [-> | Hin]; [by table_entry stem Hname Hext |]).
    by apply elem_of_nil in Hin.
  - apply bool_decide_eq_false in Ht.
    assert (Ht' : t ≠ "images") by congruence.
    apply test_extension_spec in Hkeep as (e & stem & Hin & Hname).
    rewrite bool_decide_eq_false_2 by done.
    assert (Hext : ∀ e', e' = e → mem_char "." e' = false →
                   MediaRoute.extension name = Some e').
    { intros e' -> He'. by apply (extension_of_suffix name stem e). }
    unfold MediaRoute.contentType. rewrite bool_decide_eq_false_2 by done.
    unfold FilesRoute.video_extensions in Hin.
    repeat (apply elem_of_cons in Hin as [-> | Hin]; [by table_entry stem Hname Hext |]).
    by apply elem_of_nil in Hin.
Qed.

Lemma content_type_ignores_case_witness :
  toLowerCase "Cat.PNG" = toLowerCase "cat.png" ∧
  MediaRoute.contentType "images" "Cat.PNG" = MediaRoute.contentType "images" "cat.png".
Proof.
  split; [reflexivity |].
  apply (content_type_ignores_case "images" "Cat.PNG" "cat.png"). reflexivity.
Defined.

Lemma listed_files_have_table_type_witness :
  FilesRoute.keep (Some "images") "cat.PNG" = true ∧
  ∃ e mime : string,
    has_extension [e] "cat.PNG" ∧
    (if bool_decide ("images" = "images") then MediaRoute.imageTypes
     else MediaRoute.videoTypes) !! e = Some mime ∧
    MediaRoute.contentType "images" "cat.PNG" = Str mime.
Proof.
  split; [vm_compute; reflexivity |].
  apply (listed_files_have_table_type "images" "cat.PNG"). vm_compute. reflexivity.
Defined.

End ContentTypeProps.

Module PageProps.
Import JS Path Fs Http Page.

(** X10. The column count is between 1 and 4 and never decreases when the
    width grows. *)
Theorem column_count_range_and_monotone (width width' : Z) :
  (width ≤ width')%Z →
  1 ≤ calculateColumnCount width ∧ calculateColumnCount width ≤ 4 ∧
  calculateColumnCount width ≤ calculateColumnCount width'.
Proof.
  intros Hle. unfold calculateColumnCount.
  repeat match goal with
         | |- context [(?a <=? ?b)%Z] => destruct (Z.leb_spec a b)
         end; lia.
Qed.

Lemma Qfloor_div (a : Z) (c : nat) :
  0 < c → Qfloor (inject_Z a / inject_Z (Z.of_nat c)) = (a / Z.of_nat c)%Z.
Proof.
  intros Hc. destruct c as [| c]; [lia |].
  unfold Qdiv, Qmult, Qinv, inject_Z, Qfloor. simpl.
  by rewrite Z.mul_1_r.
Qed.

Lemma Qceiling_div (a : Z) (c : nat) :
  0 < c → Qceiling (inject_Z a / inject_Z (Z.of_nat c)) = (- ((- a) / Z.of_nat c))%Z.
Proof.
  intros Hc. destruct c as [| c]; [lia |].
  unfold Qceiling, Qopp, Qdiv, Qmult, Qinv, inject_Z, Qfloor. simpl.
  by rewrite Z.mul_1_r.
Qed.

(** The rows of the grid are the rows that hold a file. *)
Lemma rowCount_spec (files : list string) (cc r : nat) :
  0 < cc → (Z.of_nat r < rowCount files cc)%Z ↔ r * cc < length files.
Proof.
  intros Hcc. unfold rowCount. rewrite Qceiling_div by done.
  pose proof (Z.div_mod (- Z.of_nat (length files)) (Z.of_nat cc)) as Hdm.
  pose proof (Z.mod_pos_bound (- Z.of_nat (length files)) (Z.of_nat cc)) as Hmod.
  split; intros H; nia.
Qed.

(** X11. With a positive column count, the k-th file is rendered in row
    k / columnCount, column k mod columnCount, which lies inside the grid
    of [rowCount] rows, and in no other cell; cells past the end of the
    list render nothing, and every cell of the grid shows the file at
    index row * columnCount + column, if there is one. *)
Theorem grid_shows_every_file_once (files : list string) (cc : nat) (tab : FileType) :
  0 < cc →
  (∀ k, k < length files →
     (Z.of_nat (k / cc) < rowCount files cc)%Z ∧ k mod cc < cc ∧
     cell_fileName <$> cellRenderer files cc tab (k mod cc) (k / cc) = files !! k ∧
     ∀ r c, c < cc → r * cc + c = k → r = k / cc ∧ c = k mod cc) ∧
  (∀ r c, length files ≤ r * cc + c → cellRenderer files cc tab c r = None) ∧
  (∀ r c, (Z.of_nat r < rowCount files cc)%Z → c < cc →
     cell_fileName <$> cellRenderer files cc tab c r = files !! (r * cc + c)).
Proof.
  intros Hcc. split; [| split].
  - intros k Hk.
    pose proof (Nat.div_mod_eq k cc) as Hdm.
    pose proof (Nat.mod_upper_bound k cc ltac:(lia)) as Hmod.
    assert (Hidx : k / cc * cc + k mod cc = k) by lia.
    split; [apply rowCount_spec; [done | nia] |]. split; [done |]. split.
    + unfold cellRenderer. rewrite Hidx.
      destruct (Nat.leb_spec (length files) k); [lia |].
      by destruct (files !! k).
    + intros r c Hc Hrc. split.
      * apply (Nat.div_unique k cc r c); lia.
      * apply (Nat.mod_unique k cc r c); lia.
  - intros r c Hpast. unfold cellRenderer.
    destruct (Nat.leb_spec (length files) (r * cc + c)); [done | lia].
  - intros r c Hr Hc. unfold cellRenderer.
    destruct (Nat.leb_spec (length files) (r * cc + c)) as [Hpast | Hin].
    + simpl. symmetry. by apply lookup_ge_None.
    + by destruct (files !! (r * cc + c)).
Qed.

(** The cell size for a width of at least 266 pixels and the column count
    of that width. *)
Lemma cellSize_bounds (width : Z) :
  (266 ≤ width)%Z →
  let cc := calculateColumnCount width in
  (250 ≤ cellSize width cc)%Z ∧
  (Z.of_nat cc * cellSize width cc ≤ width - 16)%Z.
Proof.
  intros Hw cc. unfold cellSize.
  destruct (Z.ltb_spec 0 width); [| lia].
  assert (Hcc : 0 < cc).
  { unfold cc, calculateColumnCount.
    repeat match goal with
           | |- context [(?a <=? ?b)%Z] => destruct (Z.leb_spec a b)
           end; lia. }
  rewrite Qfloor_div by done.
  pose proof (Z.div_mod (width - 16) (Z.of_nat cc) ltac:(lia)) as Hdm.
  pose proof (Z.mod_pos_bound (width - 16) (Z.of_nat cc) ltac:(lia)) as Hmod.
  split; [| nia].
  unfold cc, calculateColumnCount in *.
  repeat match goal with
         | H : context [(?a <=? ?b)%Z] |- _ => destruct (Z.leb_spec a b)
         | |- context [(?a <=? ?b)%Z] => destruct (Z.leb_spec a b)
         end; simpl in *; nia.
Qed.

(** X12. After [updateDimensions], whatever the sizes of the container and
    the window, if the width it stored is at least 266 pixels then the
    cells are at least 250 pixels wide and the stored number of columns of
    that size fits into the stored width less 16 pixels; the stored width
    is the container's, or the window's less 64 when the container's is
    0. *)
Theorem cells_fit_container (clientWidth clientHeight innerWidth innerHeight : Z) :
  let d := updateDimensions clientWidth clientHeight innerWidth innerHeight in
  (266 ≤ containerWidth d)%Z →
  (250 ≤ cellSize (containerWidth d) (columnCount d))%Z ∧
  (Z.of_nat (columnCount d) * cellSize (containerWidth d) (columnCount d)
   ≤ containerWidth d - 16)%Z ∧
  containerWidth d = (if (clientWidth =? 0) then innerWidth - 64 else clientWidth)%Z.
Proof.
  intros d Hwide. unfold d, updateDimensions in *. cbn [containerWidth columnCount] in *.
  destruct (cellSize_bounds _ Hwide) as [Hmin Hfit].
  split; [exact Hmin |]. split; [exact Hfit | reflexivity].
Qed.

(** X13. After [fetchFiles] against the files route, the file list of the
    page is the entries of the tab's folder that have an extension of the
    tab, in directory order, and the empty list when the folder cannot be
    read. *)
Theorem page_lists_folder_or_nothing (cwd : string) (tab : FileType) (w : world) :
  let type := Some (type_name tab) in
  fetchFiles (fetched (FilesRoute.GET cwd (files_query tab) w).1)
  = JStrings
      match (readdir (FilesRoute.folderPath cwd type) w).1 with
      | Ok entries => List.filter (FilesRoute.keep type) entries
      | Throw _ => []
      end.
Proof.
  intros type.
  pose proof (FilesRouteProps.GET_readdir cwd (files_query tab) w) as Hget.
  cbv zeta in Hget.
  change (get (files_query tab) "type") with type in Hget.
  destruct ((readdir (FilesRoute.folderPath cwd type) w).1) as [entries | e];
    by rewrite Hget.
Qed.

(** X14. A chosen file whose MIME type does not start with the kind of the
    active tab is not sent: whatever the server would answer, no form is
    posted, the list is not refreshed, and the upload message asks for a
    file of the tab's kind. *)
Theorem wrong_kind_is_not_sent (tab : FileType) (file : File)
    (upload : list (string * UploadRoute.FormDataEntryValue)
              → result (bool * list (string * json))) :
  startsWith (file_type file) (if on_images tab then "image/" else "video/") = false →
  handleFileUpload tab (Some file) upload
  = Outcome None
      (Some (JString (if on_images tab then "Please select an image file"
                      else "Please select a video file")))
      false.
Proof.
  intros Hkind. unfold handleFileUpload. destruct tab; simpl in *; by rewrite Hkind.
Qed.

(** X15. A chosen file of the tab's kind is posted with the tab as its type;
    against the upload route the page ends either with the success message,
    a refreshed list and the file stored under public/<tab>/<name> with
    the chosen content, or with the message 'Failed to upload file'; the
    400 answer and the generic messages cannot occur. *)
Theorem page_upload_lands_in_tab_folder (cwd : string) (tab : FileType) (file : File)
    (w : world) :
  startsWith (file_type file) (if on_images tab then "image/" else "video/") = true →
  let server := λ formData, UploadRoute.POST cwd (Ok formData) w in
  let out := handleFileUpload tab (Some file) (λ formData, fetched (server formData).1) in
  let formData :=
    [ ("file", UploadRoute.FFile (file_name file) (file_content file));
      ("type", UploadRoute.FText (type_name tab)) ] in
  let filePath :=
    join [join [join [cwd; "public"]; type_name tab]; file_name file] in
  sent out = Some formData ∧
  ((uploadMessage out = Some (JString "File uploaded successfully!") ∧
    refreshed out = true ∧
    resolve (files (server formData).2) filePath = Some (Fs.File (file_content file)))
   ∨ (uploadMessage out = Some (JString "Failed to upload file") ∧ refreshed out = false)).
Proof.
  intros Hkind server out formData filePath.
  assert (Hout : out =
    match fetched (server formData).1 with
    | Ok (true, _) =>
        Outcome (Some formData) (Some (JString "File uploaded successfully!")) true
    | Ok (false, data) =>
        Outcome (Some formData)
          (Some (json_or (get data "error") (JString "Upload failed"))) false
    | Throw _ =>
        Outcome (Some formData) (Some (JString "Upload failed. Please try again.")) false
    end).
  { unfold out, handleFileUpload. destruct tab; simpl in Hkind |- *; by rewrite Hkind. }
  destruct (StoreProps.POST_file_result cwd (file_name file) (file_content file)
              formData w eq_refl) as [[Hok Hstored] | Hfailed].
  - subst server. simpl in Hout. rewrite Hok in Hout. simpl in Hout. rewrite Hout.
    split; [done |]. left. split; [done |]. split; [done |].
    assert (Hpath : filePath
      = join [UploadRoute.folderPath cwd (get formData "type"); file_name file]).
    { unfold filePath, UploadRoute.folderPath. by destruct tab. }
    by rewrite Hpath.
  - subst server. simpl in Hout. rewrite Hfailed in Hout. simpl in Hout. rewrite Hout.
    split; [done |]. by right.
Qed.

Lemma column_count_witness :
  (700 ≤ 800)%Z ∧
  1 ≤ calculateColumnCount 700 ∧ calculateColumnCount 700 ≤ 4 ∧
  calculateColumnCount 700 ≤ calculateColumnCount 800.
Proof. split; [lia |]. apply (column_count_range_and_monotone 700 800). lia. Defined.

Lemma grid_shows_every_file_once_witness :
  let files := ["a.png"; "b.png"; "c.png"] in
  0 < 2 ∧
  (∀ k, k < length files →
     (Z.of_nat (k / 2) < rowCount files 2)%Z ∧ k mod 2 < 2 ∧
     cell_fileName <$> cellRenderer files 2 MediaDisplay.images (k mod 2) (k / 2)
       = files !! k ∧
     ∀ r c, c < 2 → r * 2 + c = k → r = k / 2 ∧ c = k mod 2) ∧
  (∀ r c, length files ≤ r * 2 + c →
     cellRenderer files 2 MediaDisplay.images c r = None) ∧
  (∀ r c, (Z.of_nat r < rowCount files 2)%Z → c < 2 →
     cell_fileName <$> cellRenderer files 2 MediaDisplay.images c r
       = files !! (r * 2 + c)).
Proof.
  split; [lia |].
  apply (grid_shows_every_file_once ["a.png"; "b.png"; "c.png"] 2 MediaDisplay.images). lia.
Defined.

Lemma cells_fit_container_witness :
  let d := updateDimensions 0 0 1064 900 in
  (266 ≤ containerWidth d)%Z ∧
  (250 ≤ cellSize (containerWidth d) (columnCount d))%Z ∧
  (Z.of_nat (columnCount d) * cellSize (containerWidth d) (columnCount d)
   ≤ containerWidth d - 16)%Z ∧
  containerWidth d = (if (0 =? 0)%Z then 1064 - 64 else 0)%Z.
Proof.
  split; [vm_compute; discriminate |].
  apply (cells_fit_container 0 0 1064 900). vm_compute. discriminate.
Defined.

Lemma wrong_kind_is_not_sent_witness :
  startsWith (file_type (FileOf "clip.mp4" "video/mp4" [x00]))
    (if on_images MediaDisplay.images then "image/" else "video/") = false ∧
  handleFileUpload MediaDisplay.images (Some (FileOf "clip.mp4" "video/mp4" [x00]))
    (λ formData, fetched (UploadRoute.POST "/app" (Ok formData) Fixtures.app_world).1)
  = Outcome None
      (Some (JString (if on_images MediaDisplay.images then "Please select an image file"
                      else "Please select a video file")))
      false.
Proof.
  split; [reflexivity |].
  apply (wrong_kind_is_not_sent MediaDisplay.images (FileOf "clip.mp4" "video/mp4" [x00])).
  reflexivity.
Defined.

Lemma page_upload_witness :
  let file := FileOf "new.png" "image/png" [x01] in
  let server := λ formData, UploadRoute.POST "/app" (Ok formData) Fixtures.app_world in
  let out :=
    handleFileUpload MediaDisplay.images (Some file) (λ formData, fetched (server formData).1) in
  let formData :=
    [ ("file", UploadRoute.FFile "new.png" [x01]);
      ("type", UploadRoute.FText "images") ] in
  startsWith (file_type file) (if on_images MediaDisplay.images then "image/" else "video/")
    = true ∧
  sent out = Some formData ∧
  ((uploadMessage out = Some (JString "File uploaded successfully!") ∧
    refreshed out = true ∧
    resolve (files (server formData).2)
      (join [join [join ["/app"; "public"]; "images"]; "new.png"]) = Some (Fs.File [x01]))
   ∨ (uploadMessage out = Some (JString "Failed to upload file") ∧ refreshed out = false)).
Proof.
  split; [reflexivity |].
  apply (page_upload_lands_in_tab_folder "/app" MediaDisplay.images
           (FileOf "new.png" "image/png" [x01]) Fixtures.app_world).
  reflexivity.
Defined.

End PageProps.

Module PlaybackProps.
Import Home HomeProps.

(** X16. After any sequence of play and stop events that ends with a video
    starting to play, that video is the only one playing and the ref
    points to it. *)
Theorem last_started_video_plays (es : list event) (v : HTMLVideoElement) :
  playing (run initial (es ++ [Play v])) = {[ v ]} ∧
  currentlyPlayingVideoRef (run initial (es ++ [Play v])) = Some v.
Proof.
  unfold run. rewrite foldl_app. simpl. fold (run initial es).
  assert (Hinv : only_current_plays (run initial es)).
  { apply run_preserves. unfold only_current_plays; simpl. set_solver. }
  split; [| reflexivity].
  unfold only_current_plays in Hinv. unfold handleVideoPlay; simpl.
  destruct (currentlyPlayingVideoRef (run initial es)) as [c |]; simpl.
  - case_bool_decide as Hcv; simpl; [set_solver |].
    assert (c = v) by (destruct (decide (c = v)); [done | contradiction]).
    set_solver.
  - set_solver.
Qed.

End PlaybackProps.

Module WatermarkPathProps.
Import JS Http PathNames MediaDisplayEffects PathProps.

Lemma replace_backslashes_free (s : string) :
  mem_char backslash (replace_backslashes s) = false.
Proof.
  induction s as [| c s IH]; [done |]. simpl. rewrite IH, orb_false_r.
  destruct (Ascii.eqb_spec c backslash) as [-> | Hc]; [done |].
  by apply Ascii.eqb_neq.
Qed.

Lemma replace_backslashes_idempotent (s : string) :
  replace_backslashes (replace_backslashes s) = replace_backslashes s.
Proof.
  induction s as [| c s IH]; [done |]. simpl. rewrite IH. f_equal.
  destruct (Ascii.eqb_spec c backslash) as [-> | Hc]; [done |].
  by rewrite (proj2 (Ascii.eqb_neq _ _) Hc).
Qed.

Lemma mem_char_app (c : ascii) (a b : string) :
  mem_char c (a +:+ b) = mem_char c a || mem_char c b.
Proof.
  induction a as [| x a IH]; [done |].
  rewrite string_app_cons. simpl. by rewrite IH, orb_assoc.
Qed.

Lemma prefix_cons (a c : ascii) (q s : string) :
  String.prefix (String a q) (String c s)
  = if ascii_dec a c then String.prefix q s else false.
Proof. reflexivity. Qed.

Lemma startsWith_split (s p : string) :
  startsWith s p = true ↔ ∃ rest, s = p +:+ rest.
Proof.
  unfold startsWith. revert s. induction p as [| a p IH]; intros s.
  - split; [intros _; by exists s |]. intros _. by destruct s.
  - destruct s as [| c s]; [split; [done | by intros [rest Hr]] |].
    rewrite prefix_cons. destruct (ascii_dec a c) as [-> | Hne].
    + rewrite IH. split; intros [rest Hr]; exists rest.
      * by rewrite string_app_cons, Hr.
      * rewrite string_app_cons in Hr. by injection Hr.
    + split; [done |]. intros [rest Hr]. rewrite string_app_cons in Hr.
      injection Hr as Hc _. by destruct Hne.
Qed.

Lemma replace_backslashes_app (a b : string) :
  replace_backslashes (a +:+ b) = replace_backslashes a +:+ replace_backslashes b.
Proof.
  induction a as [| x a IH]; [done |]. rewrite string_app_cons. simpl.
  by rewrite IH.
Qed.

Lemma replace_char_keeps (c d : ascii) :
  (if Ascii.eqb c backslash then "/"%char else c) = d → d ≠ "/"%char → c = d.
Proof. destruct (Ascii.eqb c backslash); [by intros <- | done]. Qed.

Lemma replace_char_slash (c : ascii) :
  (if Ascii.eqb c backslash then "/"%char else c) = "/"%char →
  c = "/"%char ∨ c = backslash.
Proof.
  destruct (Ascii.eqb_spec c backslash) as [-> | Hc]; [by right | by left].
Qed.

(** Removing the prefix and replacing the separators commute. *)
Lemma remove_public_prefix_replace (p : string) :
  remove_public_prefix (replace_backslashes p)
  = replace_backslashes (remove_public_prefix p).
Proof.
  unfold remove_public_prefix at 2.
  destruct (startsWith p "public/" || startsWith p ("public" +:+ String backslash ""))
    eqn:Hpre.
  - apply orb_true_iff in Hpre as [Hpre | Hpre];
      apply startsWith_split in Hpre as [rest ->];
      rewrite replace_backslashes_app;
      change (replace_backslashes _ +:+ replace_backslashes rest)
        with ("public/" +:+ replace_backslashes rest);
      unfold remove_public_prefix; rewrite startsWith_app; reflexivity.
  - apply orb_false_elim in Hpre as [Hslash Hback].
    unfold remove_public_prefix.
    assert (Hno : startsWith (replace_backslashes p) "public/" = false).
    { destruct (startsWith (replace_backslashes p) "public/") eqn:Hs; [| done].
      apply startsWith_split in Hs as [rest Hr].
      destruct p as [| c1 [| c2 [| c3 [| c4 [| c5 [| c6 [| c7 p]]]]]]];
        try discriminate Hr.
      simpl in Hr. rewrite !string_app_cons in Hr.
      injection Hr as H1 H2 H3 H4 H5 H6 H7 _.
      apply replace_char_keeps in H1, H2, H3, H4, H5, H6; try done. subst.
      apply replace_char_slash in H7 as [-> | ->].
      - change (startsWith ("public/" +:+ p) "public/" = false) in Hslash.
        by rewrite startsWith_app in Hslash.
      - change (startsWith (("public" +:+ String backslash "") +:+ p)
                  ("public" +:+ String backslash "") = false) in Hback.
        by rewrite startsWith_app in Hback. }
    assert (Hno' : startsWith (replace_backslashes p)
                     ("public" +:+ String backslash "") = false).
    { destruct (startsWith (replace_backslashes p) ("public" +:+ String backslash ""))
        eqn:Hs; [| reflexivity].
      apply startsWith_split in Hs as [rest Hr].
      pose proof (replace_backslashes_free p) as Hfree.
      rewrite Hr in Hfree. by vm_compute in Hfree. }
    by rewrite Hno, Hno'.
Qed.

(** X17. The watermark path always starts with a slash and holds no
    backslash, and it is the same for a configured path written with
    backslashes as for the path written with slashes. *)
Theorem watermark_path_is_a_web_path (envPath : option string) :
  startsWith (getWatermarkPath envPath) "/" = true ∧
  mem_char backslash (getWatermarkPath envPath) = false ∧
  getWatermarkPath (replace_backslashes <$> envPath) = getWatermarkPath envPath.
Proof.
  split; [| split].
  - unfold getWatermarkPath. destruct (falsy envPath); [done |].
    set (webPath := replace_backslashes _).
    destruct (startsWith webPath "/") eqn:Hs; [done |]. apply (startsWith_app "/").
  - unfold getWatermarkPath. destruct (falsy envPath); [done |].
    destruct (negb _); [| apply replace_backslashes_free].
    rewrite mem_char_app. by rewrite replace_backslashes_free.
  - destruct envPath as [p |]; [| done]. unfold getWatermarkPath. simpl.
    assert (Hempty : bool_decide (replace_backslashes p = "") = bool_decide (p = "")).
    { by destruct p. }
    rewrite Hempty. destruct (bool_decide (p = "")); [done |].
    by rewrite remove_public_prefix_replace, replace_backslashes_idempotent.
Qed.

Example watermark_path_of_windows_path :
  getWatermarkPath (Some ("public" +:+ String backslash ("wm" +:+ String backslash "a.png")))
  = "/wm/a.png".
Proof. reflexivity. Qed.

End WatermarkPathProps.

Module LoadProps.
Import JS Path Fs Http PathNames PathProps MediaDisplay MediaDisplayEffects.

(** X18. For an absolute working directory and a plain file name, loading
    a cell's media against the media route gives the bytes stored under
    public/<type>/<name> when that is a regular file (with the blob URL
    set for a video, and the error 'Failed to load image' only when the
    image does not decode), and the error 'Failed to load media' with no
    blob in every other case; loading is over in each case. *)
Theorem component_shows_the_stored_file (cwd name : string) (tab : FileType)
    (objectUrl : string) (decodes : bool) (s : state) (w : world) :
  startsWith cwd "/" = true → is_plain name = true →
  let filePath :=
    join [cwd; "public"] +:+ "/" +:+ Page.type_name tab +:+ "/" +:+ name in
  loadMedia tab (MediaRoute.GET cwd (media_query name tab) w).1 objectUrl decodes s
  = match files w !! filePath with
    | Some (File content) =>
        (Some (BufferBody content),
         match tab with
         | images =>
             State (blobUrl s) false
               (if decodes then None else Some "Failed to load image") (isHidden s)
         | videos => State (Some objectUrl) false None (isHidden s)
         end)
    | _ => (None, State (blobUrl s) false (Some "Failed to load media") (isHidden s))
    end.
Proof.
  intros Habs Hname filePath.
  pose proof (is_plain_spec name Hname) as (Hne & _).
  assert (Htab : is_plain (Page.type_name tab) = true) by by destruct tab.
  destruct (folder_normal cwd (Page.type_name tab) Habs Htab) as [Hnormal Hfolder].
  assert (Hmedia : MediaRoute.folderPath cwd (Page.type_name tab)
                   = join [join [cwd; "public"]; Page.type_name tab]).
  { unfold MediaRoute.folderPath. by destruct tab. }
  pose proof (MediaRouteProps.GET_cases cwd (media_query name tab) w) as Hget.
  cbv zeta in Hget.
  change (get (media_query name tab) "file") with (Some name) in Hget.
  change (get (media_query name tab) "type") with (Some (Page.type_name tab)) in Hget.
  cbv iota beta in Hget.
  rewrite (bool_decide_eq_false_2 (name = "")) in Hget by done.
  rewrite (bool_decide_eq_false_2 (Page.type_name tab = "")) in Hget by by destruct tab.
  cbn [orb] in Hget. rewrite Hmedia in Hget.
  rewrite (join_plain _ name Hnormal Hname) in Hget.
  rewrite startsWith_app in Hget.
  pose proof (normal_absolute_snoc _ name Hnormal Hname) as Hpath.
  apply normal_absolute_no_trailing in Hpath.
  rewrite (RoundTripProps.resolve_no_trailing _ _ Hpath) in Hget.
  rewrite Hfolder in Hget. rewrite string_app_assoc in Hget.
  change (("/" +:+ Page.type_name tab) +:+ "/" +:+ name)
    with ("/" +:+ (Page.type_name tab +:+ "/" +:+ name)) in Hget.
  fold filePath in Hget.
  destruct (files w !! filePath) as [[content | entries] |]; rewrite Hget; simpl.
  - by destruct tab, decodes.
  - done.
  - done.
Qed.

(** X19. A key-down event that makes the component hide its media renders
    every canvas and video element with display 'none', and is not one of
    the events the page's key handler suppresses. *)
Theorem screenshot_shortcut_hides_media (e : Home.KeyboardEvent) (text : string)
    (p : props) (s : state) :
  isHidden s = false → isHidden (handleKeyDown e s) = true →
  Forall (λ display, display = "none") (media_displays (render text p (handleKeyDown e s))) ∧
  Home.handleKeyDown e = (e, None).
Proof.
  intros Hshown Hhidden.
  split.
  - unfold render. destruct (loading _); [by repeat constructor |].
    destruct (error _); [by repeat constructor |].
    destruct (type p); simpl; rewrite Hhidden.
    + by repeat constructor.
    + unfold watermark_overlay. rewrite Hhidden.
      destruct (bool_decide (text ≠ "")); simpl; by repeat constructor.
  - unfold handleKeyDown in Hhidden. unfold Home.handleKeyDown.
    destruct s as [b l er h]. simpl in Hshown. subst h.
    destruct e as [k c sh a m d]. simpl in *.
    repeat case_bool_decide; subst; simpl in *; try discriminate;
      repeat case_bool_decide; try discriminate; try done;
      destruct c, sh, m; simpl in *; try discriminate; done.
Qed.

Lemma component_shows_the_stored_file_witness :
  startsWith "/app" "/" = true ∧ is_plain "cat.PNG" = true ∧
  loadMedia images (MediaRoute.GET "/app" (media_query "cat.PNG" images) Fixtures.app_world).1
    "blob:1" true (State None true None false)
  = match files Fixtures.app_world
            !! (join ["/app"; "public"] +:+ "/" +:+ Page.type_name images +:+ "/" +:+ "cat.PNG")
    with
    | Some (File content) =>
        (Some (BufferBody content), State None false None false)
    | _ => (None, State None false (Some "Failed to load media") false)
    end.
Proof.
  split; [reflexivity |]. split; [reflexivity |].
  apply (component_shows_the_stored_file "/app" "cat.PNG" images "blob:1" true
           (State None true None false) Fixtures.app_world); reflexivity.
Defined.

Lemma screenshot_shortcut_witness :
  let e := Home.KeyEvent "S" true true false false false in
  let s := State None false None false in
  let p := Props "clip.mp4" videos false false in
  isHidden s = false ∧ isHidden (handleKeyDown e s) = true ∧
  Forall (λ display, display = "none")
    (media_displays (render "TMBC" p (handleKeyDown e s))) ∧
  Home.handleKeyDown e = (e, None).
Proof.
  split; [reflexivity |]. split; [reflexivity |].
  apply (screenshot_shortcut_hides_media (Home.KeyEvent "S" true true false false false)
           "TMBC" (Props "clip.mp4" videos false false) (State None false None false));
    reflexivity.
Defined.

End LoadProps.

Module CanvasProps.
Import JS MediaDisplay MediaDisplayEffects MediaDisplayProps.
Local Open Scope Q_scope.

Lemma exec_app (c : context) (a b : list op) : exec c (a ++ b) = exec (exec c a) b.
Proof. apply foldl_app. Qed.

Lemma to_unsigned_long_floor (q : Q) :
  0 <= q → to_unsigned_long q = (Qfloor q mod 2 ^ 32)%Z.
Proof.
  intros Hq. unfold to_unsigned_long. destruct q as [n d]. simpl.
  rewrite Z.quot_div_nonneg; [done | | done].
  unfold Qle in Hq. simpl in Hq. lia.
Qed.

Lemma to_unsigned_long_inject (z : Z) :
  (0 ≤ z < 2 ^ 32)%Z → to_unsigned_long (inject_Z z) = z.
Proof.
  intros Hz. rewrite to_unsigned_long_floor by (apply inject_Z_nonneg; lia).
  rewrite Qfloor_Z. by apply Z.mod_small.
Qed.

Lemma gt_limit_false (z : Z) : (z ≤ 800)%Z → gt (inject_Z z) 800 = false.
Proof.
  intros Hz. destruct (gt (inject_Z z) 800) eqn:Hgt; [| done].
  apply gt_spec in Hgt. change 800 with (inject_Z 800) in Hgt.
  rewrite <- Zlt_Qlt in Hgt. lia.
Qed.

Section WithBrowser.
Context {browser : Platform}.

Lemma exec_stamp (text : string) (p : Q * Q) (c : context) :
  exec c (stamp text p) = c.
Proof. by destruct c as [s stack]. Qed.

Lemma exec_stamps (text : string) (ps : list (Q * Q)) (c : context) :
  exec c (flat_map (stamp text) ps) = c.
Proof.
  induction ps as [| p ps IH]; [done |].
  cbn [flat_map]. by rewrite exec_app, exec_stamp.
Qed.

Lemma tiling_loops (text : string) (w h : Z) (textWidth textHeight : Q)
    (stepsX stepsY : Z) (calls : list op) :
  for_range (- stepsX) stepsX (λ i calls,
    for_range (- stepsY) stepsY (λ j calls,
      let p := position w h (textWidth * (3 # 2)) (textHeight * 2) i j in
      if in_bounds w h textWidth textHeight p then calls ++ stamp text p
      else calls) calls) calls
  = calls ++ flat_map (stamp text) (selected w h textWidth textHeight stepsX stepsY).
Proof.
  unfold selected. rewrite flat_map_nested.
  rewrite <- for_range_append. unfold for_range. apply iterate_ext.
  intros i acc. rewrite flat_map_nested. rewrite <- for_range_append.
  apply iterate_ext. intros j acc'. cbv zeta.
  destruct (in_bounds w h textWidth textHeight _); simpl; by rewrite ?app_nil_r.
Qed.

(** Whatever the measures, the tiling only adds stamps. *)
Lemma drawTiling_adds_stamps (text : string) (w h : Z) (textWidth textHeight : Q)
    (calls : list op) :
  ∃ ps, reached (drawTiling text w h textWidth textHeight calls)
        = calls ++ flat_map (stamp text) ps.
Proof.
  unfold drawTiling.
  set (diagonal := Math_sqrt _).
  destruct (steps diagonal (textWidth * (3 # 2))) as [sx | | |],
           (steps diagonal (textHeight * 2)) as [sy | | |];
    try (exists []; simpl; by rewrite app_nil_r).
  - eexists. simpl. apply tiling_loops.
  - destruct (0 <? sx)%Z; exists []; simpl; by rewrite app_nil_r.
Qed.

(** X20. When the watermark code returns, the calls it made on the context
    follow the earlier ones and leave the drawing state and the stack of
    saved states as they were. *)
Theorem watermark_leaves_context_as_found (text : string) (w h : Z)
    (calls calls' : list op) :
  drawWatermark text w h calls = Returns calls' →
  ∃ drawn, calls' = calls ++ drawn ∧ ∀ c : context, exec c drawn = c.
Proof.
  unfold drawWatermark. intros Hret.
  set (fontSize := Qmax 20 (Qmin (inject_Z w) (inject_Z h) * (6 # 100))) in *.
  set (settings := [ Save; SetGlobalAlpha (3 # 10); SetFont fontSize; SetFillStyle "white";
      SetStrokeStyle "rgba(0, 0, 0, 0.3)"; SetLineWidth 1;
      SetTextAlign "center"; SetTextBaseline "middle" ]) in *.
  destruct (drawTiling_adds_stamps text w h (measureText fontSize text) fontSize
              (calls ++ settings)) as [ps Hps].
  destruct (drawTiling text w h (measureText fontSize text) fontSize (calls ++ settings))
    as [tiled | tiled]; [| discriminate Hret].
  simpl in Hps. injection Hret as <-. subst tiled.
  exists (settings ++ flat_map (stamp text) ps ++ [Restore]). split.
  - by rewrite <- !app_assoc.
  - intros [s stack]. rewrite !exec_app, exec_stamps. reflexivity.
Qed.

(** The canvas [drawImageToCanvas] leaves has the truncated display size. *)
Lemma drawImageToCanvas_size (fullSize : bool) (text : string)
    (canvas : HTMLCanvasElement) (img : HTMLImageElement) (parent : option Element)
    (has_context : bool) :
  ∃ cv, reached (drawImageToCanvas fullSize text (Some canvas) (Some img) parent has_context)
        = Some cv ∧
        width cv = to_unsigned_long (displaySize fullSize img parent).1 ∧
        height cv = to_unsigned_long (displaySize fullSize img parent).2.
Proof.
  unfold drawImageToCanvas.
  destruct (displaySize fullSize img parent) as [dw dh]. cbn [fst snd].
  destruct has_context; [| by eexists].
  destruct (bool_decide (text ≠ "")); [| by eexists].
  destruct (drawWatermark text _ _ _); by eexists.
Qed.

(** X22. In grid mode a container of at most 800 by 800 pixels gives a
    canvas of exactly the container's size, whatever the image. *)
Theorem grid_canvas_has_container_size (text : string) (canvas : HTMLCanvasElement)
    (img : HTMLImageElement) (container : Element) (has_context : bool) :
  (0 < clientWidth container ≤ 800)%Z → (0 < clientHeight container ≤ 800)%Z →
  ∃ cv, reached (drawImageToCanvas false text (Some canvas) (Some img) (Some container)
                   has_context) = Some cv ∧
        width cv = clientWidth container ∧ height cv = clientHeight container.
Proof.
  intros Hcw Hch.
  destruct (drawImageToCanvas_size false text canvas img (Some container) has_context)
    as (cv & Hcv & Hwidth & Hheight).
  exists cv. split; [done |].
  assert (Hsize : displaySize false img (Some container)
                  = (inject_Z (clientWidth container), inject_Z (clientHeight container))).
  { unfold displaySize, MAX_RESOLUTION, exceeds.
    by rewrite !gt_limit_false by lia. }
  rewrite Hsize in Hwidth, Hheight. cbn [fst snd] in Hwidth, Hheight.
  rewrite to_unsigned_long_inject in Hwidth by lia.
  rewrite to_unsigned_long_inject in Hheight by lia.
  done.
Qed.

End WithBrowser.

Lemma watermark_leaves_context_witness :
  let calls' := reached (drawWatermark "TMBC" 100 100 []) in
  drawWatermark "TMBC" 100 100 [] = Returns calls' ∧
  ∃ drawn, calls' = [] ++ drawn ∧ ∀ c : context, exec c drawn = c.
Proof.
  split; [vm_compute; reflexivity |].
  apply (watermark_leaves_context_as_found (browser := Fixtures.test_browser)
           "TMBC" 100 100 []).
  vm_compute. reflexivity.
Defined.

Lemma grid_canvas_has_container_size_witness :
  let container := Container 300 200 in
  (0 < clientWidth container ≤ 800)%Z ∧ (0 < clientHeight container ≤ 800)%Z ∧
  ∃ cv, reached (drawImageToCanvas false "TMBC" (Some blank_canvas) (Some (Img 4000 3000))
                   (Some container) true) = Some cv ∧
        width cv = clientWidth container ∧ height cv = clientHeight container.
Proof.
  split; [simpl; lia |]. split; [simpl; lia |].
  apply (grid_canvas_has_container_size (browser := Fixtures.test_browser)
           "TMBC" blank_canvas (Img 4000 3000) (Container 300 200) true); simpl; lia.
Defined.

End CanvasProps.
